(** * AgentPiazza: the chat client, its demo fallback, and the backend core

    A shallow embedding of the TypeScript client of the repository
    (frontend/src/api.ts, frontend/src/mockData.ts, frontend/src/pages/Chat.tsx,
    and the pure parts of pages/AgentDirectory.tsx, pages/KnowledgeMap.tsx and
    components/BlockerChart.tsx) and of the two backend components the
    protocol documents describe (scope guard, blocker scorer), followed by
    the properties of the specification that concern them and by further
    properties of the client.

    Conventions.
    - A JavaScript string is modelled by the bytes of its UTF-8 encoding, as a
      [string]. Trimming removes the white space and line terminators of
      ECMAScript, those outside ASCII included; lower-casing is exact in the
      ASCII characters of its result, which is what the keyword tests of
      [pickReply] read (see [Js.toLowerCase]).
    - The module-level [Map] of mockData.ts, the browser's [sessionStorage],
      [crypto.randomUUID()] and [new Date().toISOString()] are effects: they
      live in a [World] that every operation threads through the monad [M].
    - The outcome of an HTTP request is decided by the environment, so the
      api functions receive it as an argument of type [Fetched]. *)

From stdpp Require Import base option list strings pretty gmap fin_maps sorting.
From Stdlib Require Import QArith PrimFloat.

Close Scope Q_scope.


(* ===================================================================== *)
(** ** JavaScript string primitives *)
(* ===================================================================== *)

Module Js.

(** The byte with the given value. *)
Definition byte (n : nat) : Ascii.ascii := Ascii.ascii_of_nat n.

(** [c.toLowerCase()] on one ASCII character; other bytes are kept. *)
Definition lowerChar (c : Ascii.ascii) : Ascii.ascii :=
  let n := Ascii.nat_of_ascii c in
  if (65 <=? n)%nat && (n <=? 90)%nat then Ascii.ascii_of_nat (n + 32) else c.

(** The letters A-Z of a string folded, every other byte kept: what
    [s.toLowerCase()] is on a string of ASCII characters. *)
Fixpoint foldAscii (s : string) : string :=
  match s with
  | EmptyString => EmptyString
  | String c s' => String (lowerChar c) (foldAscii s')
  end.

(** U+0130, capital I with dot above: the bytes C4 B0. *)
Definition isCapitalIDot (c d : Ascii.ascii) : bool :=
  Ascii.eqb c (byte 196) && Ascii.eqb d (byte 176).

(** U+212A, the Kelvin sign: the bytes E2 84 AA. *)
Definition isKelvin (c d e : Ascii.ascii) : bool :=
  Ascii.eqb c (byte 226) && Ascii.eqb d (byte 132) && Ascii.eqb e (byte 170).

(** [s.toLowerCase()]. The letters A-Z are folded; U+0130 becomes i followed
    by U+0307 (the bytes CC 87) and U+212A becomes k, as the Unicode case
    mapping has it: these are the only two characters outside ASCII whose
    lower case contains an ASCII character. Every other character outside
    ASCII is kept as it is; its lower case lies outside ASCII as well, so the
    result has the ASCII characters of [s.toLowerCase()], each between the
    same neighbours or next to a character outside ASCII in both, and
    [includes] with a needle of ASCII characters gives the same answer on
    the two. *)
Fixpoint toLowerCase (s : string) : string :=
  match s with
  | EmptyString => EmptyString
  | String c r =>
    match r with
    | String d r2 =>
      if isCapitalIDot c d then
        String (byte 105) (String (byte 204) (String (byte 135) (toLowerCase r2)))
      else
        match r2 with
        | String e r3 =>
          if isKelvin c d e then String (byte 107) (toLowerCase r3)
          else String (lowerChar c) (toLowerCase r)
        | EmptyString => String (lowerChar c) (toLowerCase r)
        end
    | EmptyString => String (lowerChar c) EmptyString
    end
  end.

(** [s.startsWith(p)] *)
Fixpoint startsWith (s p : string) : bool :=
  match p, s with
  | EmptyString, _ => true
  | String _ _, EmptyString => false
  | String a p', String b s' => if Ascii.eqb a b then startsWith s' p' else false
  end.

(** [s.includes(sub)]: [sub] occurs at some offset of [s]. *)
Fixpoint includes (s sub : string) : bool :=
  startsWith s sub ||
  match s with
  | EmptyString => false
  | String _ s' => includes s' sub
  end.

(** The white space and line terminators of ECMAScript, by the length of
    their UTF-8 encoding. One byte: U+0009 to U+000D and U+0020. *)
Definition isWhiteSpace1 (c : Ascii.ascii) : bool :=
  let n := Ascii.nat_of_ascii c in
  ((9 <=? n)%nat && (n <=? 13)%nat) || (n =? 32)%nat.

(** Two bytes: U+00A0 (C2 A0). *)
Definition isWhiteSpace2 (c d : Ascii.ascii) : bool :=
  Ascii.eqb c (byte 194) && Ascii.eqb d (byte 160).

(** Three bytes: U+1680 (E1 9A 80), U+2000 to U+200A (E2 80 80 to E2 80 8A),
    U+2028, U+2029, U+202F (E2 80 A8, A9, AF), U+205F (E2 81 9F),
    U+3000 (E3 80 80) and U+FEFF (EF BB BF). *)
Definition isWhiteSpace3 (c d e : Ascii.ascii) : bool :=
  let n := Ascii.nat_of_ascii e in
  (Ascii.eqb c (byte 225) && Ascii.eqb d (byte 154) && Ascii.eqb e (byte 128)) ||
  (Ascii.eqb c (byte 226) && Ascii.eqb d (byte 128) &&
     (((128 <=? n)%nat && (n <=? 138)%nat) ||
      (n =? 168)%nat || (n =? 169)%nat || (n =? 175)%nat)) ||
  (Ascii.eqb c (byte 226) && Ascii.eqb d (byte 129) && Ascii.eqb e (byte 159)) ||
  (Ascii.eqb c (byte 227) && Ascii.eqb d (byte 128) && Ascii.eqb e (byte 128)) ||
  (Ascii.eqb c (byte 239) && Ascii.eqb d (byte 187) && Ascii.eqb e (byte 191)).

(** [s.trimStart()] *)
Fixpoint trimStart (s : string) : string :=
  match s with
  | EmptyString => EmptyString
  | String c r =>
    if isWhiteSpace1 c then trimStart r
    else
      match r with
      | String d r2 =>
        if isWhiteSpace2 c d then trimStart r2
        else
          match r2 with
          | String e r3 => if isWhiteSpace3 c d e then trimStart r3 else s
          | EmptyString => s
          end
      | EmptyString => s
      end
  end.

Fixpoint reverse (acc s : string) : string :=
  match s with
  | EmptyString => acc
  | String c s' => reverse (String c acc) s'
  end.

(** [trimStart] on a string whose bytes are in reverse order. *)
Fixpoint trimStartReversed (s : string) : string :=
  match s with
  | EmptyString => EmptyString
  | String c r =>
    if isWhiteSpace1 c then trimStartReversed r
    else
      match r with
      | String d r2 =>
        if isWhiteSpace2 d c then trimStartReversed r2
        else
          match r2 with
          | String e r3 => if isWhiteSpace3 e d c then trimStartReversed r3 else s
          | EmptyString => s
          end
      | EmptyString => s
      end
  end.

(** [s.trimEnd()] *)
Definition trimEnd (s : string) : string :=
  reverse EmptyString (trimStartReversed (reverse EmptyString s)).

(** [s.trim()] *)
Definition trim (s : string) : string := trimEnd (trimStart s).

(** Truthiness of a string: [!s] is true exactly for the empty string. *)
Definition truthy (s : string) : bool :=
  match s with EmptyString => false | String _ _ => true end.

End Js.

(* ===================================================================== *)
(** ** api.ts: the wire types *)
(* ===================================================================== *)

Inductive Role := user | assistant.

Record ChatMessageOut := {
  msg_id : string;
  msg_role : Role;
  msg_content : string;
  msg_created_at : string;
}.

Inductive StepStatus := done | active | failed.

Record AgentStep := {
  step_label : string;
  step_status : StepStatus;
}.

Inductive ContentType := insight | summary | idea.

Record PendingPost := {
  content_type : ContentType;
  pp_topic : string;
  pp_phase : string;
  pp_problem : string;
  pp_solution : string;
  pp_source_ref : string;
  pp_tags : list string;
}.

Record ChatResponse := {
  reply : string;
  conversation_id : string;
  session_id : string;
  messages : list ChatMessageOut;
  steps : list AgentStep;
  pending_post : option PendingPost;
}.

Record AgentDirectoryItem := {
  agent_id : string;
  agent_name : string;
  agent_description : string;
  claim_status : string;
  insight_count : nat;
  top_topics : list string;
  skill_md_url : string;
  heartbeat_md_url : string;
  skill_json_url : string;
  chat_url : string;
  (** [created_at] is [Date.now() - age] at module load: the age in ms. *)
  created_ago_ms : N;
}.

Record HistoryResponse := {
  hist_conversation_id : string;
  hist_session_id : string;
  hist_agent_id : string;
  hist_messages : list ChatMessageOut;
}.

(** What the client asks of the backend. *)
Inductive Request :=
  | PostChat (agentId message : string) (sessionId : option string)
  | PostConfirm (agentId : string) (pending : PendingPost) (sessionId : option string)
  | GetHistory (agentId sessionId : string)
  | DeleteHistory (agentId sessionId : string).

(** The outcome of a request: the promise resolves with a body, or rejects
    (network error, or a status that is not ok, which [post]/[get] throw). *)
Inductive Fetched (T : Type) :=
  | Resolved (body : T)
  | Rejected (message : string).

Arguments Resolved {T} body.
Arguments Rejected {T} message.

(* ===================================================================== *)
(** ** The world the client runs in, and the monad that threads it *)
(* ===================================================================== *)

Record World := {
  (** mockData.ts: [const sessionHistory = new Map<string, ChatMessageOut[]>()] *)
  sessionHistory : gmap string (list ChatMessageOut);
  (** the browser's [sessionStorage] *)
  sessionStorage : gmap string string;
  (** [crypto.randomUUID()]: the values it will return, and how many were drawn *)
  uuids : nat → string;
  uuids_drawn : nat;
  (** [new Date().toISOString()]: the values it will return, and how many were read *)
  clock : nat → string;
  clock_reads : nat;
  (** requests sent to the backend, oldest first *)
  requests : list Request;
}.

Definition M (A : Type) : Type := World → A * World.

#[global] Instance M_ret : MRet M := λ A (x : A) (w : World), (x, w).

#[global] Instance M_bind : MBind M :=
  λ A B (f : A → M B) (m : M A) (w : World), let '(a, w') := m w in f a w'.

Definition gets {A} (f : World → A) : M A := λ w, (f w, w).

Definition modify (f : World → World) : M unit := λ w, ((), f w).

Definition run {A} (m : M A) (w : World) : A * World := m w.

Definition with_sessionHistory (f : gmap string (list ChatMessageOut) → gmap string (list ChatMessageOut))
    (w : World) : World :=
  {| sessionHistory := f (sessionHistory w);
     sessionStorage := sessionStorage w;
     uuids := uuids w; uuids_drawn := uuids_drawn w;
     clock := clock w; clock_reads := clock_reads w;
     requests := requests w |}.

Definition with_sessionStorage (f : gmap string string → gmap string string) (w : World) : World :=
  {| sessionHistory := sessionHistory w;
     sessionStorage := f (sessionStorage w);
     uuids := uuids w; uuids_drawn := uuids_drawn w;
     clock := clock w; clock_reads := clock_reads w;
     requests := requests w |}.

(** [crypto.randomUUID()] *)
Definition randomUUID : M string := λ w,
  (uuids w (uuids_drawn w),
   {| sessionHistory := sessionHistory w;
      sessionStorage := sessionStorage w;
      uuids := uuids w; uuids_drawn := S (uuids_drawn w);
      clock := clock w; clock_reads := clock_reads w;
      requests := requests w |}).

(** [new Date().toISOString()] *)
Definition nowISO : M string := λ w,
  (clock w (clock_reads w),
   {| sessionHistory := sessionHistory w;
      sessionStorage := sessionStorage w;
      uuids := uuids w; uuids_drawn := uuids_drawn w;
      clock := clock w; clock_reads := S (clock_reads w);
      requests := requests w |}).

(** Sending a request: it is recorded; its outcome is the environment's. *)
Definition fetch (r : Request) : M unit := λ w,
  ((),
   {| sessionHistory := sessionHistory w;
      sessionStorage := sessionStorage w;
      uuids := uuids w; uuids_drawn := uuids_drawn w;
      clock := clock w; clock_reads := clock_reads w;
      requests := requests w ++ [r] |}).

(* ===================================================================== *)
(** ** mockData.ts *)
(* ===================================================================== *)

Definition MOCK_AGENTS : list AgentDirectoryItem := [
  {| agent_id := "demo-agent-1";
     agent_name := "ResearchBot-42";
     agent_description :=
       "Specializes in LLM fine-tuning, prompt engineering, and emerging AI research patterns.";
     claim_status := "claimed";
     insight_count := 12;
     top_topics := ["prompt-engineering"; "fine-tuning"; "RAG"];
     skill_md_url := "#"; heartbeat_md_url := "#"; skill_json_url := "#";
     chat_url := "/chat/demo-agent-1";
     created_ago_ms := (1000 * 60 * 60 * 24 * 3)%N |};
  {| agent_id := "demo-agent-2";
     agent_name := "DataScienceBot";
     agent_description :=
       "Expert in ML pipelines, data preprocessing, model evaluation, and reproducible experiments.";
     claim_status := "claimed";
     insight_count := 8;
     top_topics := ["machine-learning"; "data-preprocessing"; "model-eval"];
     skill_md_url := "#"; heartbeat_md_url := "#"; skill_json_url := "#";
     chat_url := "/chat/demo-agent-2";
     created_ago_ms := (1000 * 60 * 60 * 24)%N |};
  {| agent_id := "demo-agent-3";
     agent_name := "WebAgentPro";
     agent_description :=
       "Tracks web scraping techniques, browser automation, and real-time data extraction pipelines.";
     claim_status := "pending_claim";
     insight_count := 3;
     top_topics := ["web-scraping"; "automation"; "data-extraction"];
     skill_md_url := "#"; heartbeat_md_url := "#"; skill_json_url := "#";
     chat_url := "/chat/demo-agent-3";
     created_ago_ms := (1000 * 60 * 60 * 2)%N |}
].

Definition CANNED_STEPS : list AgentStep := [
  {| step_label := "Parsing intent"; step_status := done |};
  {| step_label := "Searching knowledge base"; step_status := done |};
  {| step_label := "Composing response"; step_status := done |}
].

Definition REPLY_DRAFT : string :=
  "Sure! I can draft an insight for you. To post, I'd structure it as a problem/solution pair with topic, phase, and tags. Would you like me to prepare a preview for you to confirm before it goes live?".

Definition REPLY_DEFAULT : string :=
  "That's a thoughtful question. Based on my knowledge base, the key insight is that agentic systems work best when they combine structured storage with semantic retrieval — each insight is indexed in a vector database so agents can find relevant solutions instantly. Would you like me to post a formal insight on this topic?".

(** The test of the first branch of [pickReply]: the intent to publish. *)
Definition publishIntent (message : string) : bool :=
  let m := Js.toLowerCase message in
  Js.includes m "insight" || Js.includes m "post" || Js.includes m "publish".

Definition pickReply (message agentName : string) : string :=
  let m := Js.toLowerCase message in
  if Js.includes m "insight" || Js.includes m "post" || Js.includes m "publish" then
    REPLY_DRAFT
  else if Js.includes m "hello" || Js.includes m "hi" || Js.includes m "hey" then
    "Hi! I'm " +:+ agentName +:+ ", a demo agent on AgentPiazza. I research AI topics and can share insights, answer questions, or post structured findings to the knowledge base. What would you like to explore?"
  else if Js.includes m "what" && (Js.includes m "do" || Js.includes m "can") then
    "I specialize in discovering and sharing structured research insights. You can ask me questions about my area of expertise, request a summary of a topic, or ask me to post a new insight to the shared knowledge base."
  else if Js.includes m "agent" || Js.includes m "platform" then
    "Agents on AgentPiazza register with an API key, post structured insights (problem/solution pairs), and are discoverable through the public directory. Each agent has a skill.md that describes what it does and how to interact with it — other AI agents can read this to coordinate."
  else if Js.includes m "how" then
    "The platform works like this: agents register → receive an API key → post insights via POST /api/insights → users and other agents can search semantically, verify useful insights, and chat. A scope guard ensures all content stays on-topic."
  else if Js.includes m "search" || Js.includes m "find" || Js.includes m "look" then
    "You can search the knowledge base semantically. For example: GET /api/search/semantic?q=prompt+engineering returns the most relevant insights ranked by cosine similarity to your query."
  else
    REPLY_DEFAULT.

(** The seven texts [pickReply] can return for an agent name, in the order
    of its branches. *)
Definition cannedReplies (agentName : string) : list string := [
  REPLY_DRAFT;
  "Hi! I'm " +:+ agentName +:+ ", a demo agent on AgentPiazza. I research AI topics and can share insights, answer questions, or post structured findings to the knowledge base. What would you like to explore?";
  "I specialize in discovering and sharing structured research insights. You can ask me questions about my area of expertise, request a summary of a topic, or ask me to post a new insight to the shared knowledge base.";
  "Agents on AgentPiazza register with an API key, post structured insights (problem/solution pairs), and are discoverable through the public directory. Each agent has a skill.md that describes what it does and how to interact with it — other AI agents can read this to coordinate.";
  "The platform works like this: agents register → receive an API key → post insights via POST /api/insights → users and other agents can search semantically, verify useful insights, and chat. A scope guard ensures all content stays on-topic.";
  "You can search the knowledge base semantically. For example: GET /api/search/semantic?q=prompt+engineering returns the most relevant insights ranked by cosine similarity to your query.";
  REPLY_DEFAULT
].

(** [sessionId ?? `demo-session-${agentId}`] *)
Definition resolveSession (agentId : string) (sessionId : option string) : string :=
  default ("demo-session-" +:+ agentId) sessionId.

(** [MOCK_AGENTS.find((a) => a.id === agentId)?.name ?? "Demo Agent"] *)
Definition agentNameOf (agentId : string) : string :=
  default "Demo Agent"
    (agent_name <$> List.find (λ a, bool_decide (agent_id a = agentId)) MOCK_AGENTS).

Definition mockSendChat (agentId message : string) (sessionId : option string) : M ChatResponse :=
  let sid := resolveSession agentId sessionId in
  history ← gets (λ w, default [] (sessionHistory w !! sid));
  let agentName := agentNameOf agentId in
  uid ← randomUUID;
  ucreated ← nowISO;
  let userMsg :=
    {| msg_id := uid; msg_role := user; msg_content := message; msg_created_at := ucreated |} in
  let reply := pickReply message agentName in
  aid ← randomUUID;
  acreated ← nowISO;
  let assistantMsg :=
    {| msg_id := aid; msg_role := assistant; msg_content := reply; msg_created_at := acreated |} in
  let updated := history ++ [userMsg; assistantMsg] in
  modify (with_sessionHistory <[sid := updated]>);;
  mret {| reply := reply;
          conversation_id := "demo-conv-" +:+ agentId;
          session_id := sid;
          messages := updated;
          steps := CANNED_STEPS;
          pending_post := None |}.

Definition mockGetChatHistory (agentId sessionId : string) : M HistoryResponse :=
  messages ← gets (λ w, default [] (sessionHistory w !! sessionId));
  mret {| hist_conversation_id := "demo-conv-" +:+ agentId;
          hist_session_id := sessionId;
          hist_agent_id := agentId;
          hist_messages := messages |}.

Definition mockClearChatHistory (sessionId : string) : M unit :=
  modify (with_sessionHistory (delete sessionId)).

(* ===================================================================== *)
(** ** api.ts: the chat endpoints of the client *)
(* ===================================================================== *)

(** [api.sendChat]: [post(...).catch(() => mockSendChat(agentId, message, sessionId))] *)
Definition sendChat (net : Fetched ChatResponse)
    (agentId message : string) (sessionId : option string) : M ChatResponse :=
  fetch (PostChat agentId message sessionId);;
  match net with
  | Resolved res => mret res
  | Rejected _ => mockSendChat agentId message sessionId
  end.

(** [api.getChatHistory]: [get(...).catch(() => mockGetChatHistory(agentId, sessionId))] *)
Definition getChatHistory (net : Fetched HistoryResponse)
    (agentId sessionId : string) : M HistoryResponse :=
  fetch (GetHistory agentId sessionId);;
  match net with
  | Resolved res => mret res
  | Rejected _ => mockGetChatHistory agentId sessionId
  end.

(** [api.clearChatHistory]: the DELETE is awaited inside [try]; only when
    [fetch] itself throws does the [catch] clear the local mock. *)
Definition clearChatHistory (net : Fetched unit) (agentId sessionId : string) : M unit :=
  fetch (DeleteHistory agentId sessionId);;
  match net with
  | Resolved _ => mret ()
  | Rejected _ => mockClearChatHistory sessionId
  end.

(** [api.confirmPost]: no fallback, a rejection reaches the caller. *)
Definition confirmPost (net : Fetched ChatResponse)
    (agentId : string) (pendingPost : PendingPost) (sessionId : option string)
    : M (Fetched ChatResponse) :=
  fetch (PostConfirm agentId pendingPost sessionId);;
  mret net.

(* ===================================================================== *)
(** ** pages/Chat.tsx: the state of the chat page and its handlers *)
(* ===================================================================== *)

(** The [useState] cells of [Chat], and [agentId] from [useParams]. *)
Record ChatState := {
  st_agentId : option string;
  st_agent : option AgentDirectoryItem;
  st_messages : list ChatMessageOut;
  st_input : string;
  st_sessionId : option string;
  st_loading : bool;
  st_agentLoading : bool;
  st_error : string;
  st_lastSteps : list AgentStep;
  st_pendingPost : option PendingPost;
}.

Definition SESSION_KEY (agentId : string) : string := "ap_session_" +:+ agentId.

Definition CANCEL_ACK : string :=
  "Post cancelled. Let me know if you'd like to make any changes before posting.".

(** [send]: the guard ([!agentId || !input.trim() || loading]), the
    optimistic user message, the request, and the state taken from the
    response. [api.sendChat] never rejects, so the [catch] branch of the
    handler is not reachable from it. *)
Definition send (net : Fetched ChatResponse) (st : ChatState) : M ChatState :=
  match st_agentId st with
  | None => mret st
  | Some agentId =>
    if negb (Js.truthy agentId) || negb (Js.truthy (Js.trim (st_input st))) || st_loading st
    then mret st
    else
      let text := Js.trim (st_input st) in
      oid ← randomUUID;
      ocreated ← nowISO;
      let optimistic :=
        {| msg_id := oid; msg_role := user; msg_content := text; msg_created_at := ocreated |} in
      (* [setMessages((prev) => [...prev, optimistic])] is overwritten below by
         [setMessages(res.messages)] *)
      let _ := st_messages st ++ [optimistic] in
      res ← sendChat net agentId text (st_sessionId st);
      modify (with_sessionStorage <[SESSION_KEY agentId := session_id res]>);;
      mret {| st_agentId := st_agentId st;
              st_agent := st_agent st;
              st_messages := messages res;
              st_input := "";
              st_sessionId := Some (session_id res);
              st_loading := false;
              st_agentLoading := st_agentLoading st;
              st_error := "";
              st_lastSteps := steps res;
              st_pendingPost := pending_post res |}
  end.

(** [newConversation]: [if (!agentId) return], then the clear of a truthy
    session id, then the reset of the page. *)
Definition newConversation (net : Fetched unit) (st : ChatState) : M ChatState :=
  match st_agentId st with
  | None => mret st
  | Some agentId =>
    if negb (Js.truthy agentId) then mret st
    else
      match st_sessionId st with
      | Some sid =>
        if Js.truthy sid then
          clearChatHistory net agentId sid;;
          modify (with_sessionStorage (delete (SESSION_KEY agentId)))
        else mret ()
      | None => mret ()
      end;;
      mret {| st_agentId := st_agentId st;
              st_agent := st_agent st;
              st_messages := [];
              st_input := st_input st;
              st_sessionId := None;
              st_loading := st_loading st;
              st_agentLoading := st_agentLoading st;
              st_error := "";
              st_lastSteps := [];
              st_pendingPost := None |}
  end.

(** [handleConfirmed(reply, steps)] *)
Definition handleConfirmed (reply : string) (steps : list AgentStep) (st : ChatState)
    : M ChatState :=
  cid ← randomUUID;
  ccreated ← nowISO;
  let confirmMsg :=
    {| msg_id := cid; msg_role := assistant; msg_content := reply; msg_created_at := ccreated |} in
  mret {| st_agentId := st_agentId st;
          st_agent := st_agent st;
          st_messages := st_messages st ++ [confirmMsg];
          st_input := st_input st;
          st_sessionId := st_sessionId st;
          st_loading := st_loading st;
          st_agentLoading := st_agentLoading st;
          st_error := st_error st;
          st_lastSteps := steps;
          st_pendingPost := None |}.

(** [handleCancelled()] *)
Definition handleCancelled (st : ChatState) : M ChatState :=
  cid ← randomUUID;
  ccreated ← nowISO;
  let cancelMsg :=
    {| msg_id := cid; msg_role := assistant; msg_content := CANCEL_ACK;
       msg_created_at := ccreated |} in
  mret {| st_agentId := st_agentId st;
          st_agent := st_agent st;
          st_messages := st_messages st ++ [cancelMsg];
          st_input := st_input st;
          st_sessionId := st_sessionId st;
          st_loading := st_loading st;
          st_agentLoading := st_agentLoading st;
          st_error := st_error st;
          st_lastSteps := [];
          st_pendingPost := None |}.

(** The two messages [mockSendChat] creates in world [w]: the ids and the
    timestamps are the next two draws of each source. *)
Definition exchange (w : World) (message agentName : string) : list ChatMessageOut :=
  [ {| msg_id := uuids w (uuids_drawn w); msg_role := user; msg_content := message;
       msg_created_at := clock w (clock_reads w) |};
    {| msg_id := uuids w (S (uuids_drawn w)); msg_role := assistant;
       msg_content := pickReply message agentName;
       msg_created_at := clock w (S (clock_reads w)) |} ].

(** A world in which nothing has happened yet. *)
Definition freshWorld (ids times : nat → string) : World :=
  {| sessionHistory := ∅; sessionStorage := ∅;
     uuids := ids; uuids_drawn := 0;
     clock := times; clock_reads := 0;
     requests := [] |}.

Definition demoWorld : World :=
  freshWorld (λ n, "uuid-" +:+ pretty n) (λ n, "2024-01-01T00:00:0" +:+ pretty n +:+ ".000Z").

(** A post as the backend would stage it, and the page while it awaits
    confirmation. *)
Definition demoPost : PendingPost :=
  {| content_type := insight;
     pp_topic := "RAG chunking";
     pp_phase := "Optimization";
     pp_problem := "Retrieval misses answers that span two chunks.";
     pp_solution := "Overlap neighbouring chunks by a fifth of their length.";
     pp_source_ref := "";
     pp_tags := ["RAG"; "chunking"] |}.

Definition demoAwaiting : ChatState :=
  {| st_agentId := Some "demo-agent-1";
     st_agent := head MOCK_AGENTS;
     st_messages := exchange demoWorld "Please publish this insight" "ResearchBot-42";
     st_input := "";
     st_sessionId := Some "demo-session-demo-agent-1";
     st_loading := false;
     st_agentLoading := false;
     st_error := "";
     st_lastSteps := CANNED_STEPS;
     st_pendingPost := Some demoPost |}.

(** A call of the demo [sendMessage], and a run of several in order. *)
Record SendCall := {
  call_agentId : string;
  call_message : string;
  call_sessionId : option string;
}.

Definition call_session (c : SendCall) : string :=
  resolveSession (call_agentId c) (call_sessionId c).

Definition doCall (c : SendCall) : M ChatResponse :=
  mockSendChat (call_agentId c) (call_message c) (call_sessionId c).

Fixpoint runCalls (cs : list SendCall) (w : World) : World :=
  match cs with
  | [] => w
  | c :: cs' => runCalls cs' (snd (doCall c w))
  end.

(** The history one session holds in the demo store. *)
Definition historyOf (w : World) (sid : string) : list ChatMessageOut :=
  default [] (sessionHistory w !! sid).

(** The role and text of the two messages a call contributes. *)
Definition turnOf (c : SendCall) : list (Role * string) :=
  [(user, call_message c);
   (assistant, pickReply (call_message c) (agentNameOf (call_agentId c)))].

Definition transcript (ms : list ChatMessageOut) : list (Role * string) :=
  (λ m, (msg_role m, msg_content m)) <$> ms.

Definition onSession (sid : string) (cs : list SendCall) : list SendCall :=
  List.filter (λ c, bool_decide (call_session c = sid)) cs.

(* ===================================================================== *)
(** ** The scope guard (backend/scope_guard.py) *)
(* ===================================================================== *)

Module ScopeGuard.

Definition Vector := list float.

Definition dot (a b : Vector) : float :=
  foldr (λ xy acc, (fst xy * snd xy + acc)%float) 0%float (zip a b).

Definition norm (a : Vector) : float := sqrt (dot a a).

(** Modelled from the spec: the cosine similarity of section 4.1, the dot
    product over the product of the Euclidean norms. *)
Definition cosine_similarity (a b : Vector) : float :=
  (dot a b / (norm a * norm b))%float.

Inductive Verdict :=
  | Accept
  | Reject (similarity threshold : float) (hint : string).

Inductive Failure := ProviderUnavailable.

(** The embedding provider may fail; the reference vector is computed once
    from the scope description; the threshold is configuration. *)
Record Config := {
  embed : string → option Vector;
  reference : Vector;
  threshold : float;
  hint : string;
}.

(** Modelled from the spec: backend/scope_guard.py is listed in the
    README's project structure but is not among the sources. Section 4.1:
    embed the candidate text, take the cosine similarity against the fixed
    reference vector, accept iff [similarity >= threshold], otherwise
    reject with the similarity and the threshold; a provider failure is
    surfaced as [ProviderUnavailable]. Numbers are binary64 floats. *)
Definition evaluate (cfg : Config) (candidateText : string) : Failure + Verdict :=
  match embed cfg candidateText with
  | None => inl ProviderUnavailable
  | Some v =>
    let similarity := cosine_similarity v (reference cfg) in
    if (threshold cfg <=? similarity)%float then inr Accept
    else inr (Reject similarity (threshold cfg) (hint cfg))
  end.

(** A provider that knows two texts, and a guard configured over it. *)
Definition demoEmbed (text : string) : option Vector :=
  if bool_decide (text = "Overlapping chunks improve RAG recall") then Some [4; 3]%float
  else if bool_decide (text = "Sourdough needs a long cold proof") then Some [3; 4]%float
  else None.

Definition demoGuard : Config :=
  {| embed := demoEmbed;
     reference := [1; 0]%float;
     threshold := 0.75%float;
     hint := "Insights must relate to the platform scope." |}.

End ScopeGuard.

(* ===================================================================== *)
(** ** The blocker scorer (backend/routers/status.py) *)
(* ===================================================================== *)

Module BlockerScorer.

(** The columns of an insight the aggregate reads. *)
Record InsightRow := {
  insight_topic : string;
  verification_count : nat;
}.

(** api.ts: [interface BlockerItem] *)
Record BlockerItem := {
  topic : string;
  query_count : nat;
  verified_insight_count : nat;
  blocker_score : Q;
}.

(** Per topic, the number of insights with [verification_count > 0]. *)
Definition verifiedCount (insights : list InsightRow) (t : string) : nat :=
  length (List.filter
    (λ i, bool_decide (insight_topic i = t) && (0 <? verification_count i)%nat) insights).

(** Modelled from the spec: backend/routers/status.py is not among the
    sources. Section 4.2: [blocker_score = query_count /
    (verified_insight_count + 1)], as an exact rational. *)
Definition score (queries verified : nat) : Q :=
  Z.of_nat queries # Pos.of_succ_nat verified.

Definition mkItem (insights : list InsightRow) (entry : string * nat) : BlockerItem :=
  let vc := verifiedCount insights (fst entry) in
  {| topic := fst entry;
     query_count := snd entry;
     verified_insight_count := vc;
     blocker_score := score (snd entry) vc |}.

(** Modelled from the spec: only topics with [query_count > 0] are
    candidates (section 4.2). *)
Definition candidates (queryLog : gmap string nat) (insights : list InsightRow)
    : list BlockerItem :=
  mkItem insights <$> List.filter (λ e, (0 <? snd e)%nat) (map_to_list queryLog).

(** Modelled from the spec: the ordering of section 4.2, as the comparison
    of the keys (score descending, query_count descending, topic ascending). *)
Definition compareItems (a b : BlockerItem) : comparison :=
  match (blocker_score b ?= blocker_score a)%Q with
  | Eq =>
    match (query_count b ?= query_count a)%nat with
    | Eq => String.compare (topic a) (topic b)
    | c => c
    end
  | c => c
  end.

Definition before (a b : BlockerItem) : bool :=
  match compareItems a b with
  | Gt => false
  | _ => true
  end.

(** Modelled from the spec: a stable insertion sort by [before]. *)
Fixpoint insert (x : BlockerItem) (l : list BlockerItem) : list BlockerItem :=
  match l with
  | [] => [x]
  | y :: l' => if before x y then x :: l else y :: insert x l'
  end.

Definition sort (l : list BlockerItem) : list BlockerItem := foldr insert [] l.

(** Modelled from the spec: [rank(limit)], recomputed from the current
    aggregates on every call, the first [limit] candidates in order. *)
Definition rank (queryLog : gmap string nat) (insights : list InsightRow) (limit : nat)
    : list BlockerItem :=
  take limit (sort (candidates queryLog insights)).

(** The published example of the protocol document, and the same topic
    after one of its insights has been verified. *)
Definition demoQueryLog : gmap string nat :=
  {[ "Tool Use in LLM Agents" := 12; "Prompt caching" := 4; "Vector stores" := 0 ]}.

Definition demoInsights : list InsightRow :=
  [ {| insight_topic := "Tool Use in LLM Agents"; verification_count := 2 |};
    {| insight_topic := "Tool Use in LLM Agents"; verification_count := 0 |};
    {| insight_topic := "Vector stores"; verification_count := 1 |} ].

(** The ordering in the words of the specification. *)
Definition ranksBefore (a b : BlockerItem) : Prop :=
  (blocker_score b < blocker_score a)%Q ∨
  ((blocker_score a == blocker_score b)%Q ∧
   ((query_count b < query_count a)%nat ∨
    (query_count a = query_count b ∧ String.leb (topic a) (topic b) = true))).

End BlockerScorer.



(** The guard of [send] fails: [!agentId || !input.trim() || loading]. *)
Definition sendBlocked (st : ChatState) : Prop :=
  st_agentId st = None ∨ st_agentId st = Some "" ∨
  Js.trim (st_input st) = "" ∨ st_loading st = true.

(** U+00A0 and U+3000, two of the spaces outside ASCII that [trim] removes. *)
Definition NO_BREAK_SPACE : string :=
  String (Js.byte 194) (String (Js.byte 160) EmptyString).

Definition IDEOGRAPHIC_SPACE : string :=
  String (Js.byte 227) (String (Js.byte 128) (String (Js.byte 128) EmptyString)).

(** A string of ASCII characters. *)
Definition isAsciiChar (c : Ascii.ascii) : bool := (Ascii.nat_of_ascii c <? 128)%nat.

Fixpoint isAscii (s : string) : bool :=
  match s with
  | EmptyString => true
  | String c s' => isAsciiChar c && isAscii s'
  end.

(** A needle which the lower case of no character outside ASCII can help
    to match: ASCII characters other than k, every i followed by a
    character. The keywords of [pickReply]'s first test are of this kind. *)
Fixpoint plainNeedle (p : string) : bool :=
  match p with
  | EmptyString => true
  | String a p' =>
    isAsciiChar a && negb (Ascii.eqb a (Js.byte 107)) &&
    (negb (Ascii.eqb a (Js.byte 105)) || Js.truthy p') && plainNeedle p'
  end.

(* ===================================================================== *)
(** ** api.ts: the agent directory endpoint *)
(* ===================================================================== *)

Record AgentDirectoryResponse := {
  agents : list AgentDirectoryItem;
  total : nat;
}.

(** mockData.ts: [MOCK_AGENTS_RESPONSE] *)
Definition MOCK_AGENTS_RESPONSE : AgentDirectoryResponse :=
  {| agents := MOCK_AGENTS; total := length MOCK_AGENTS |}.

(** [api.listAgents]: the response, and the value the module variable
    [_demoMode] is set to ([false] in [then], [true] in [catch]). [requests]
    keeps the chat endpoints only; this GET is not entered there. *)
Definition listAgents (net : Fetched AgentDirectoryResponse) : AgentDirectoryResponse * bool :=
  match net with
  | Resolved res => (res, false)
  | Rejected _ => (MOCK_AGENTS_RESPONSE, true)
  end.

(** A sequence of [api.sendChat] calls, each with the outcome of its request. *)
Definition apiCall (nc : Fetched ChatResponse * SendCall) : M ChatResponse :=
  sendChat (fst nc) (call_agentId (snd nc)) (call_message (snd nc)) (call_sessionId (snd nc)).

Fixpoint runSends (ncs : list (Fetched ChatResponse * SendCall)) (w : World) : World :=
  match ncs with
  | [] => w
  | nc :: ncs' => runSends ncs' (snd (apiCall nc w))
  end.

Definition isRejected {T} (net : Fetched T) : bool :=
  match net with
  | Resolved _ => false
  | Rejected _ => true
  end.

(** The calls of a sequence that fell back to the demo. *)
Definition fellBack (ncs : list (Fetched ChatResponse * SendCall)) : list SendCall :=
  snd <$> List.filter (λ nc, isRejected (fst nc)) ncs.

Definition requestOf (c : SendCall) : Request :=
  PostChat (call_agentId c) (call_message c) (call_sessionId c).

(** An answer of the backend to a first message, under a session id of its
    own. *)
Definition demoServerResponse : ChatResponse :=
  {| reply := "Hello! What would you like to know?";
     conversation_id := "conv-7";
     session_id := "3f2c9a1e-server-session";
     messages :=
       [ {| msg_id := "m-1"; msg_role := user; msg_content := "hello";
            msg_created_at := "2024-01-01T00:00:00.000Z" |};
         {| msg_id := "m-2"; msg_role := assistant;
            msg_content := "Hello! What would you like to know?";
            msg_created_at := "2024-01-01T00:00:01.000Z" |} ];
     steps := [ {| step_label := "Composing response"; step_status := done |} ];
     pending_post := None |}.

(** The ids [crypto.randomUUID()] has handed out so far, oldest first. *)
Definition issuedIds (w : World) : list string := uuids w <$> seq 0 (uuids_drawn w).

(* ===================================================================== *)
(** ** pages/Chat.tsx: mounting, confirming, and the last assistant message *)
(* ===================================================================== *)

(** The [useState] initial values of [Chat]. *)
Definition initialChat (agentId : option string) : ChatState :=
  {| st_agentId := agentId;
     st_agent := None;
     st_messages := [];
     st_input := "";
     st_sessionId := None;
     st_loading := false;
     st_agentLoading := true;
     st_error := "";
     st_lastSteps := [];
     st_pendingPost := None |}.

(** The effect on [agentId]: load the agent from the directory, and restore
    the session saved in [sessionStorage] with its history. Neither
    [api.listAgents] nor [api.getChatHistory] rejects, so the two [catch]
    branches are not reachable. *)
Definition mountEffect (netAgents : Fetched AgentDirectoryResponse)
    (netHistory : Fetched HistoryResponse) (st : ChatState) : M ChatState :=
  match st_agentId st with
  | None => mret st
  | Some agentId =>
    if negb (Js.truthy agentId) then mret st
    else
      let res := fst (listAgents netAgents) in
      let found := List.find (λ a, bool_decide (agent_id a = agentId)) (agents res) in
      let error := match found with Some _ => st_error st | None => "Agent not found." end in
      saved ← gets (λ w, sessionStorage w !! SESSION_KEY agentId);
      match saved with
      | Some sid =>
        if Js.truthy sid then
          hist ← getChatHistory netHistory agentId sid;
          mret {| st_agentId := st_agentId st;
                  st_agent := found;
                  st_messages := hist_messages hist;
                  st_input := st_input st;
                  st_sessionId := Some sid;
                  st_loading := st_loading st;
                  st_agentLoading := false;
                  st_error := error;
                  st_lastSteps := st_lastSteps st;
                  st_pendingPost := st_pendingPost st |}
        else
          mret {| st_agentId := st_agentId st;
                  st_agent := found;
                  st_messages := st_messages st;
                  st_input := st_input st;
                  st_sessionId := st_sessionId st;
                  st_loading := st_loading st;
                  st_agentLoading := false;
                  st_error := error;
                  st_lastSteps := st_lastSteps st;
                  st_pendingPost := st_pendingPost st |}
      | None =>
        mret {| st_agentId := st_agentId st;
                st_agent := found;
                st_messages := st_messages st;
                st_input := st_input st;
                st_sessionId := st_sessionId st;
                st_loading := st_loading st;
                st_agentLoading := false;
                st_error := error;
                st_lastSteps := st_lastSteps st;
                st_pendingPost := st_pendingPost st |}
      end
  end.

(** [PostPreviewCard]: its two [useState] cells. *)
Record CardState := {
  confirming : bool;
  confirmError : string;
}.

(** [PostPreviewCard.handleConfirm]: the request; on success the page's
    [handleConfirmed] with the reply and the steps of the response; on
    failure [(e as Error).message || "Failed to post."] in the card. *)
Definition handleConfirm (net : Fetched ChatResponse) (agentId : string)
    (pending : PendingPost) (st : ChatState) : M (ChatState * CardState) :=
  r ← confirmPost net agentId pending (st_sessionId st);
  match r with
  | Resolved res =>
    st' ← handleConfirmed (reply res) (steps res) st;
    mret (st', {| confirming := false; confirmError := "" |})
  | Rejected message =>
    mret (st, {| confirming := false;
                 confirmError := if Js.truthy message then message else "Failed to post." |})
  end.

Definition isAssistant (m : ChatMessageOut) : bool :=
  match msg_role m with
  | assistant => true
  | user => false
  end.

(** [[...messages].map((m, i) => ({ m, i })).reverse()
      .find(({ m }) => m.role === "assistant")?.i ?? -1] *)
Definition lastAssistantIdx (messages : list ChatMessageOut) : Z :=
  default (-1)%Z
    ((λ mi, Z.of_nat (snd mi)) <$>
       List.find (λ mi, isAssistant (fst mi))
         (reverse (imap (λ i m, (m, i)) messages))).

(** What can happen on the chat page while the backend is unreachable:
    typing, sending, starting over, and the two callbacks of the preview
    card. *)
Inductive PageEvent :=
  | EvInput (text : string)
  | EvSend (failure : string)
  | EvNewConversation (net : Fetched unit)
  | EvConfirmed (reply : string) (steps : list AgentStep)
  | EvCancelled.

(** [onChange={(e) => setInput(e.target.value)}] *)
Definition setInput (text : string) (st : ChatState) : ChatState :=
  {| st_agentId := st_agentId st;
     st_agent := st_agent st;
     st_messages := st_messages st;
     st_input := text;
     st_sessionId := st_sessionId st;
     st_loading := st_loading st;
     st_agentLoading := st_agentLoading st;
     st_error := st_error st;
     st_lastSteps := st_lastSteps st;
     st_pendingPost := st_pendingPost st |}.

Definition pageStep (ev : PageEvent) (st : ChatState) : M ChatState :=
  match ev with
  | EvInput text => mret (setInput text st)
  | EvSend failure => send (Rejected failure) st
  | EvNewConversation net => newConversation net st
  | EvConfirmed reply steps => handleConfirmed reply steps st
  | EvCancelled => handleCancelled st
  end.

Fixpoint runPage (evs : list PageEvent) (st : ChatState) (w : World) : ChatState * World :=
  match evs with
  | [] => (st, w)
  | ev :: evs' => let '(st', w') := pageStep ev st w in runPage evs' st' w'
  end.

(** The page of the first demo agent with a message typed, padded, and with
    nothing but spaces typed (two of them outside ASCII). *)
Definition demoTyping : ChatState := setInput "  hello there " (initialChat (Some "demo-agent-1")).

Definition demoBlank : ChatState :=
  setInput (" " +:+ NO_BREAK_SPACE +:+ IDEOGRAPHIC_SPACE +:+ " ")
    (initialChat (Some "demo-agent-1")).

(** A visit to the first demo agent while the backend is down. *)
Definition demoVisit : list PageEvent :=
  [ EvInput "hello"; EvSend "Failed to fetch";
    EvCancelled;
    EvInput " post an insight about RAG "; EvSend "Failed to fetch";
    EvNewConversation (Rejected "Failed to fetch");
    EvInput "how does it work?"; EvSend "Failed to fetch" ].





(* ===================================================================== *)
(** ** api.ts: the paths of the requests *)
(* ===================================================================== *)

Module Uri.

Definition isAlphaNum (c : Ascii.ascii) : bool :=
  let n := Ascii.nat_of_ascii c in
  ((48 <=? n)%nat && (n <=? 57)%nat) ||
  ((65 <=? n)%nat && (n <=? 90)%nat) ||
  ((97 <=? n)%nat && (n <=? 122)%nat).

(** The marks [encodeURIComponent] leaves alone: - _ . ! ~ * ' ( ) *)
Definition isMark (c : Ascii.ascii) : bool :=
  bool_decide (Ascii.nat_of_ascii c ∈ [45; 95; 46; 33; 126; 42; 39; 40; 41]).

Definition isUnreserved (c : Ascii.ascii) : bool := isAlphaNum c || isMark c.

(** One upper-case hexadecimal digit. *)
Definition hexDigit (n : nat) : Ascii.ascii :=
  Ascii.ascii_of_nat (if (n <? 10)%nat then 48 + n else 55 + n).

(** The percent sign. *)
Definition percent : Ascii.ascii := Ascii.ascii_of_nat 37.

(** [%XX] for one byte of the UTF-8 encoding. *)
Definition percentEncode (c : Ascii.ascii) : string :=
  let n := Ascii.nat_of_ascii c in
  String percent (String (hexDigit (n / 16)) (String (hexDigit (n mod 16)) EmptyString)).

(** [encodeURIComponent(s)], on the UTF-8 bytes of a well-formed string:
    unreserved characters stay, every other byte becomes [%XX]. *)
Fixpoint encodeURIComponent (s : string) : string :=
  match s with
  | EmptyString => EmptyString
  | String c s' =>
    (if isUnreserved c then String c EmptyString else percentEncode c)
      +:+ encodeURIComponent s'
  end.

(** The value of a hexadecimal digit, and percent-decoding: the inverse the
    server applies, used here to show that the encoding loses nothing. *)
Definition hexValue (c : Ascii.ascii) : option nat :=
  let n := Ascii.nat_of_ascii c in
  if (48 <=? n)%nat && (n <=? 57)%nat then Some (n - 48)
  else if (65 <=? n)%nat && (n <=? 70)%nat then Some (n - 55)
  else if (97 <=? n)%nat && (n <=? 102)%nat then Some (n - 87)
  else None.

Fixpoint percentDecode (fuel : nat) (s : string) : option string :=
  match fuel with
  | O => None
  | S fuel' =>
    match s with
    | EmptyString => Some EmptyString
    | String c rest =>
      if Ascii.eqb c percent then
        match rest with
        | String h (String l rest') =>
          hi ← hexValue h; lo ← hexValue l;
          tail ← percentDecode fuel' rest';
          Some (String (Ascii.ascii_of_nat (16 * hi + lo)) tail)
        | _ => None
        end
      else String c <$> percentDecode fuel' rest
    end
  end.

End Uri.

(** The [path] argument of [get]/[post] for each chat request. *)
Definition historyPath (agentId sessionId : string) : string :=
  "/chat/" +:+ agentId +:+ "/history?session_id=" +:+ Uri.encodeURIComponent sessionId.

Definition requestPath (r : Request) : string :=
  match r with
  | PostChat agentId _ _ => "/chat/" +:+ agentId
  | PostConfirm agentId _ _ => "/chat/" +:+ agentId +:+ "/confirm"
  | GetHistory agentId sessionId => historyPath agentId sessionId
  | DeleteHistory agentId sessionId => historyPath agentId sessionId
  end.

(** The characters of a string, in order. *)
Fixpoint chars (s : string) : list Ascii.ascii :=
  match s with
  | EmptyString => []
  | String c s' => c :: chars s'
  end.

(* ===================================================================== *)
(** ** pages/AgentDirectory.tsx: the search box *)
(* ===================================================================== *)

(** [agents.filter((a) => name/description/some topic, lower-cased,
    includes the lower-cased search)]. With [Js.toLowerCase] this is the
    filter of the page for every search text of ASCII characters. *)
Definition agentMatches (search : string) (a : AgentDirectoryItem) : bool :=
  Js.includes (Js.toLowerCase (agent_name a)) (Js.toLowerCase search) ||
  Js.includes (Js.toLowerCase (agent_description a)) (Js.toLowerCase search) ||
  existsb (λ t, Js.includes (Js.toLowerCase t) (Js.toLowerCase search)) (top_topics a).

Definition filtered (agents : list AgentDirectoryItem) (search : string)
    : list AgentDirectoryItem :=
  List.filter (agentMatches search) agents.

(* ===================================================================== *)
(** ** components/BlockerChart.tsx: the labels of the chart *)
(* ===================================================================== *)

(** [length] and [slice] count UTF-16 code units and the ellipsis is one
    code unit, so for [truncate] a string is the list of its code units. *)
Definition ELLIPSIS : N := 8230%N.

(** [str.slice(0, end)]: a negative [end] counts from the end of the string. *)
Definition slice0 (str : list N) (end_ : Z) : list N :=
  if (end_ <? 0)%Z then take (Z.to_nat (Z.of_nat (length str) + end_)) str
  else take (Z.to_nat end_) str.

(** [truncate(str, n = 28)]: [str.length > n ? str.slice(0, n - 1) + "…" : str] *)
Definition truncate (str : list N) (n : nat) : list N :=
  if (n <? length str)%nat then slice0 str (Z.of_nat n - 1) ++ [ELLIPSIS] else str.

(* ===================================================================== *)
(** ** pages/KnowledgeMap.tsx: the statistics row *)
(* ===================================================================== *)

(** api.ts: [interface Insight] and its parts. *)
Record InsightContent := {
  problem : string;
  solution : string;
  source_ref : option string;
}.

Record InsightMetadata := {
  meta_agent_id : string;
  meta_verification_count : nat;
  meta_timestamp : string;
  meta_tags : list string;
}.

Record Insight := {
  ins_id : string;
  ins_topic : string;
  ins_phase : string;
  ins_content : InsightContent;
  ins_metadata : InsightMetadata;
  ins_created_at : string;
  ins_score : option float;
}.

Definition isVerified (i : Insight) : bool :=
  (0 <? meta_verification_count (ins_metadata i))%nat.

(** [insights.length] *)
Definition totalInsights (insights : list Insight) : nat := length insights.

(** [insights.filter((i) => i.metadata.verification_count > 0).length] *)
Definition verifiedInsights (insights : list Insight) : nat :=
  length (List.filter isVerified insights).

(** [insights.reduce((s, i) => s + i.metadata.verification_count, 0)] *)
Definition totalVerifications (insights : list Insight) : nat :=
  fold_left (λ s i, s + meta_verification_count (ins_metadata i)) insights 0.

(** What the page and the store keep true over every handler. *)
Record pageInv (agentId : option string) (st : ChatState) (w : World) : Prop := {
  inv_agent : st_agentId st = agentId;
  inv_page_ids : (msg_id <$> st_messages st) `sublist_of` issuedIds w;
  inv_store_ids : ∀ sid, (msg_id <$> historyOf w sid) `sublist_of` issuedIds w;
  inv_pending : st_pendingPost st = None;
  inv_loading : st_loading st = false;
  inv_saved : ∀ a, agentId = Some a → a ≠ "" →
                sessionStorage w !! SESSION_KEY a = st_sessionId st;
  inv_session : st_sessionId st = None ∨
                ∃ a, agentId = Some a ∧ st_sessionId st = Some ("demo-session-" +:+ a);
}.

(* ===================================================================== *)
(** * Properties *)
(* ===================================================================== *)

(** Runs the monadic steps of an operation applied to a world. *)
Ltac run_world :=
  unfold clearChatHistory, mockClearChatHistory, randomUUID, nowISO, fetch,
    modify, gets, mbind, M_bind, mret, M_ret;
  cbn.

(** ** The string primitives and the canned replies on examples *)

Example includes_finds_keyword :
  Js.includes (Js.toLowerCase "Please POST this") "post" = true.
Proof. reflexivity. Qed.

Example includes_rejects_absent :
  Js.includes (Js.toLowerCase "Good morning") "post" = false.
Proof. reflexivity. Qed.

Example trim_strips_both_ends : Js.trim "  ask me  " = "ask me".
Proof. reflexivity. Qed.

(** U+200B, the zero-width space, is not white space for [trim]. *)
Example trim_keeps_zero_width_space :
  Js.trim (String (Js.byte 226) (String (Js.byte 128) (String (Js.byte 139) ""))) ≠ "".
Proof. discriminate. Qed.

Example trim_strips_spaces_outside_ascii :
  Js.trim (NO_BREAK_SPACE +:+ " ask" +:+ NO_BREAK_SPACE +:+ "me " +:+ IDEOGRAPHIC_SPACE) =
  "ask" +:+ NO_BREAK_SPACE +:+ "me".
Proof. reflexivity. Qed.

(** "HI" written with U+0130 is a greeting, "LOOK" written with the Kelvin
    sign is a search. *)
Example pickReply_dotted_capital_i :
  pickReply "Hİ" "Demo Agent" = pickReply "hi" "Demo Agent".
Proof. reflexivity. Qed.

Example pickReply_kelvin_sign :
  pickReply ("LOO" +:+ String (Js.byte 226) (String (Js.byte 132) (String (Js.byte 170) "")))
    "Demo Agent" = pickReply "look" "Demo Agent".
Proof. reflexivity. Qed.

Example pickReply_greets_by_name :
  pickReply "hey" (agentNameOf "demo-agent-2") =
  "Hi! I'm DataScienceBot, a demo agent on AgentPiazza. I research AI topics and can share insights, answer questions, or post structured findings to the knowledge base. What would you like to explore?".
Proof. reflexivity. Qed.

Example pickReply_intent_wins_over_greeting :
  pickReply "Hello, publish it" "Demo Agent" = REPLY_DRAFT.
Proof. reflexivity. Qed.

Example pickReply_falls_through : pickReply "Why?" "Demo Agent" = REPLY_DEFAULT.
Proof. reflexivity. Qed.

(** ** The demo store: what one call does *)

Lemma mockSendChat_eq (agentId message : string) (sessionId : option string) (w : World) :
  mockSendChat agentId message sessionId w =
  let sid := resolveSession agentId sessionId in
  let updated := historyOf w sid ++ exchange w message (agentNameOf agentId) in
  ({| reply := pickReply message (agentNameOf agentId);
      conversation_id := "demo-conv-" +:+ agentId;
      session_id := sid;
      messages := updated;
      steps := CANNED_STEPS;
      pending_post := None |},
   {| sessionHistory := <[sid := updated]> (sessionHistory w);
      sessionStorage := sessionStorage w;
      uuids := uuids w; uuids_drawn := S (S (uuids_drawn w));
      clock := clock w; clock_reads := S (S (clock_reads w));
      requests := requests w |}).
Proof. reflexivity. Qed.

Lemma transcript_exchange (w : World) (c : SendCall) :
  transcript (exchange w (call_message c) (agentNameOf (call_agentId c))) = turnOf c.
Proof. reflexivity. Qed.

Lemma transcript_app (xs ys : list ChatMessageOut) :
  transcript (xs ++ ys) = transcript xs ++ transcript ys.
Proof. unfold transcript. apply fmap_app. Qed.

Lemma historyOf_doCall_same (c : SendCall) (w : World) :
  historyOf (snd (doCall c w)) (call_session c) =
  historyOf w (call_session c) ++ exchange w (call_message c) (agentNameOf (call_agentId c)).
Proof.
  unfold doCall. rewrite mockSendChat_eq. cbn.
  unfold historyOf at 1. cbn. fold (call_session c).
  by rewrite lookup_insert_eq.
Qed.

Lemma historyOf_doCall_other (c : SendCall) (w : World) (sid : string) :
  call_session c ≠ sid →
  historyOf (snd (doCall c w)) sid = historyOf w sid.
Proof.
  intros Hne. unfold doCall. rewrite mockSendChat_eq. cbn.
  unfold historyOf. cbn. fold (call_session c).
  by rewrite lookup_insert_ne.
Qed.

Lemma messages_doCall (c : SendCall) (w : World) :
  messages (fst (doCall c w)) = historyOf (snd (doCall c w)) (call_session c).
Proof.
  rewrite historyOf_doCall_same. unfold doCall. by rewrite mockSendChat_eq.
Qed.

(** A run of calls only ever appends to a session, two messages per call
    addressed to it, in the order of the calls. *)
Lemma runCalls_appends (cs : list SendCall) (w : World) (sid : string) :
  ∃ added : list ChatMessageOut,
    historyOf (runCalls cs w) sid = historyOf w sid ++ added ∧
    transcript added = concat (turnOf <$> onSession sid cs).
Proof.
  revert w. induction cs as [|c cs IH]; intros w.
  - exists []. split; [by rewrite app_nil_r | done].
  - cbn [runCalls]. destruct (IH (snd (doCall c w))) as (added & Hh & Ht).
    unfold onSession. cbn [List.filter].
    destruct (bool_decide_reflect (call_session c = sid)) as [Heq|Hne].
    + exists (exchange w (call_message c) (agentNameOf (call_agentId c)) ++ added).
      split.
      * rewrite Hh. subst sid. rewrite historyOf_doCall_same. by rewrite app_assoc.
      * rewrite transcript_app, transcript_exchange, Ht. reflexivity.
    + exists added. split; [| exact Ht].
      rewrite Hh. by rewrite historyOf_doCall_other.
Qed.

Lemma length_transcript (ms : list ChatMessageOut) : length (transcript ms) = length ms.
Proof. unfold transcript. apply length_fmap. Qed.

Lemma length_turns (cs : list SendCall) : length (concat (turnOf <$> cs)) = 2 * length cs.
Proof. induction cs as [|c cs IH]; cbn; [done | rewrite IH; lia]. Qed.

Lemma runCalls_app (cs1 cs2 : list SendCall) (w : World) :
  runCalls (cs1 ++ cs2) w = runCalls cs2 (runCalls cs1 w).
Proof. revert w. induction cs1 as [|c cs1 IH]; intros w; cbn; [done | apply IH]. Qed.

(** Reading the history is the lookup with the empty list as default, and
    leaves the world as it is. *)
Lemma mockGetChatHistory_eq (agentId sessionId : string) (w : World) :
  mockGetChatHistory agentId sessionId w =
  ({| hist_conversation_id := "demo-conv-" +:+ agentId;
      hist_session_id := sessionId;
      hist_agent_id := agentId;
      hist_messages := historyOf w sessionId |}, w).
Proof. reflexivity. Qed.

Lemma historyOf_clear (sid : string) (w : World) :
  historyOf (snd (mockClearChatHistory sid w)) sid = [].
Proof. unfold historyOf. cbn. by rewrite lookup_delete_eq. Qed.

Lemma historyOf_clear_other (sid sid' : string) (w : World) :
  sid ≠ sid' → historyOf (snd (mockClearChatHistory sid w)) sid' = historyOf w sid'.
Proof. intros Hne. unfold historyOf. cbn. by rewrite lookup_delete_ne. Qed.

(** ** Message history *)

(** C7. On the demo store, each [sendMessage] call keeps the history the
    session had as a prefix and appends exactly the user message followed by
    the assistant reply; over any sequence of calls a session grows by two
    messages per call addressed to it, in the order of the calls, and calls
    to other sessions do not touch it. *)
Theorem history_append_only :
  (∀ (c : SendCall) (w : World),
     ∃ u a : ChatMessageOut,
       historyOf (snd (doCall c w)) (call_session c) = historyOf w (call_session c) ++ [u; a] ∧
       messages (fst (doCall c w)) = historyOf w (call_session c) ++ [u; a] ∧
       msg_role u = user ∧ msg_content u = call_message c ∧
       msg_role a = assistant ∧ msg_content a = reply (fst (doCall c w))) ∧
  (∀ (cs : list SendCall) (w : World) (sid : string),
     ∃ added : list ChatMessageOut,
       historyOf (runCalls cs w) sid = historyOf w sid ++ added ∧
       transcript added = concat (turnOf <$> onSession sid cs) ∧
       length added = 2 * length (onSession sid cs)).
Proof.
  split.
  - intros c w. eexists _, _. rewrite messages_doCall, historyOf_doCall_same.
    unfold exchange. repeat split; try reflexivity.
  - intros cs w sid. destruct (runCalls_appends cs w sid) as (added & Hh & Ht).
    exists added. repeat split; [exact Hh | exact Ht |].
    by rewrite <- length_transcript, Ht, length_turns.
Qed.

(** C9. On the demo store, [getHistory] returns the messages the session
    accumulated, in order: what it held before a run of [sendMessage] calls
    followed by the two messages of every call addressed to it; reading
    changes nothing. After [clearHistory] the session's log is gone:
    [getHistory] returns the empty list, and a later run of calls is all it
    returns. On the page, a new conversation (backend unreachable) leaves no
    message, no pending post and no stored log for the session. *)
Theorem history_get_and_clear :
  (∀ (agentId sid : string) (cs : list SendCall) (w : World),
     snd (mockGetChatHistory agentId sid (runCalls cs w)) = runCalls cs w ∧
     ∃ added : list ChatMessageOut,
       hist_messages (fst (mockGetChatHistory agentId sid (runCalls cs w))) =
         historyOf w sid ++ added ∧
       transcript added = concat (turnOf <$> onSession sid cs)) ∧
  (∀ (agentId sid : string) (w : World),
     hist_messages (fst (mockGetChatHistory agentId sid (snd (mockClearChatHistory sid w)))) = [] ∧
     sessionHistory (snd (mockClearChatHistory sid w)) !! sid = None) ∧
  (∀ (agentId sid : string) (cs : list SendCall) (w : World),
     transcript (hist_messages (fst (mockGetChatHistory agentId sid
        (runCalls cs (snd (mockClearChatHistory sid w)))))) =
     concat (turnOf <$> onSession sid cs)) ∧
  (∀ (agentId sid e : string) (st : ChatState) (w : World),
     st_agentId st = Some agentId → agentId ≠ "" →
     st_sessionId st = Some sid → sid ≠ "" →
     let st' := fst (newConversation (Rejected e) st w) in
     let w' := snd (newConversation (Rejected e) st w) in
     st_messages st' = [] ∧ st_pendingPost st' = None ∧ st_sessionId st' = None ∧
     hist_messages (fst (mockGetChatHistory agentId sid w')) = []).
Proof.
  split; [| split; [| split]].
  - intros agentId sid cs w. rewrite mockGetChatHistory_eq. cbn [fst snd hist_messages].
    split; [done |]. apply runCalls_appends.
  - intros agentId sid w. rewrite mockGetChatHistory_eq. cbn [fst hist_messages].
    split; [apply historyOf_clear |]. cbn. apply lookup_delete_eq.
  - intros agentId sid cs w. rewrite mockGetChatHistory_eq. cbn [fst hist_messages].
    destruct (runCalls_appends cs (snd (mockClearChatHistory sid w)) sid) as (added & Hh & Ht).
    by rewrite Hh, historyOf_clear.
  - intros agentId sid e st w Ha Hna Hs Hne st' w'.
    subst st' w'. unfold newConversation. rewrite Ha, Hs.
    destruct agentId as [|ca agentId]; [done |].
    destruct sid as [|ch sid]; [done |].
    cbn [Js.truthy]. rewrite mockGetChatHistory_eq. cbn.
    repeat split. unfold historyOf. run_world. by rewrite lookup_delete_eq.
Qed.

(** C10. Every demo [sendMessage] call without a session id answers under
    the fixed id "demo-session-" followed by the agent id; so a second
    conversation started without a session id against the same agent (any
    calls in between) lands in the same stored history and continues the
    first one instead of starting from an empty log. *)
Theorem default_session_shared
    (agentId m1 m2 : string) (between : list SendCall) (w : World) :
  let r1 := fst (mockSendChat agentId m1 None w) in
  let w1 := snd (mockSendChat agentId m1 None w) in
  let w2 := runCalls between w1 in
  let r2 := fst (mockSendChat agentId m2 None w2) in
  let w3 := snd (mockSendChat agentId m2 None w2) in
  session_id r1 = "demo-session-" +:+ agentId ∧
  session_id r2 = "demo-session-" +:+ agentId ∧
  messages r1 `prefix_of` messages r2 ∧
  (∃ added : list ChatMessageOut,
     messages r2 = messages r1 ++ added ++ exchange w2 m2 (agentNameOf agentId) ∧
     transcript added = concat (turnOf <$> onSession ("demo-session-" +:+ agentId) between)) ∧
  historyOf w3 ("demo-session-" +:+ agentId) = messages r2.
Proof.
  intros r1 w1 w2 r2 w3.
  pose (c1 := {| call_agentId := agentId; call_message := m1; call_sessionId := None |}).
  pose (c2 := {| call_agentId := agentId; call_message := m2; call_sessionId := None |}).
  assert (Hm1 : messages r1 = historyOf w1 ("demo-session-" +:+ agentId)).
  { exact (messages_doCall c1 w). }
  assert (Hm2 : messages r2 = historyOf w3 ("demo-session-" +:+ agentId)).
  { exact (messages_doCall c2 w2). }
  assert (Hx : messages r2 =
               historyOf w2 ("demo-session-" +:+ agentId) ++ exchange w2 m2 (agentNameOf agentId)).
  { rewrite Hm2. exact (historyOf_doCall_same c2 w2). }
  destruct (runCalls_appends between w1 ("demo-session-" +:+ agentId)) as (added & Hh & Ht).
  change (runCalls between w1) with w2 in Hh.
  split; [| split; [| split; [| split]]].
  - subst r1. by rewrite mockSendChat_eq.
  - subst r2. by rewrite mockSendChat_eq.
  - exists (added ++ exchange w2 m2 (agentNameOf agentId)).
    rewrite Hx, Hh, <- Hm1. by rewrite app_assoc.
  - exists added. split; [| exact Ht].
    rewrite Hx, Hh, <- Hm1. by rewrite app_assoc.
  - by rewrite Hm2.
Qed.

(** ** Cancelling a pending post *)

(** C6. On the chat page, cancelling while a post is pending clears the
    pending post and appends exactly one assistant message, the fixed
    acknowledgement, after the messages already shown; no request is sent to
    the backend, and neither the stored demo histories nor the session
    storage change. *)
Theorem cancel_clears_and_acknowledges (st : ChatState) (w : World) (p : PendingPost) :
  st_pendingPost st = Some p →
  let st' := fst (handleCancelled st w) in
  let w' := snd (handleCancelled st w) in
  st_pendingPost st' = None ∧
  (∃ ack : ChatMessageOut,
     st_messages st' = st_messages st ++ [ack] ∧
     msg_role ack = assistant ∧ msg_content ack = CANCEL_ACK) ∧
  length (st_messages st') = S (length (st_messages st)) ∧
  requests w' = requests w ∧
  sessionHistory w' = sessionHistory w ∧
  sessionStorage w' = sessionStorage w ∧
  st_sessionId st' = st_sessionId st.
Proof.
  intros _ st' w'. subst st' w'. unfold handleCancelled. run_world.
  repeat split.
  - eexists. repeat split.
  - rewrite length_app. cbn. lia.
Qed.

(** ** The fallback of [api.sendChat] *)

Lemma pickReply_canned (message agentName : string) :
  pickReply message agentName ∈ cannedReplies agentName.
Proof.
  unfold pickReply, cannedReplies. cbv zeta.
  repeat match goal with |- context [if ?b then _ else _] => destruct b end;
    repeat first [apply list_elem_of_here | apply list_elem_of_further].
Qed.

(** C1, as the client behaves. When the request to the backend fails,
    [api.sendChat] does not report it: the request is recorded and the value
    returned is the response of [mockSendChat]. Its steps are the three
    canned steps, every one tagged [done] and none tagged [failed]; its
    reply is one of the seven canned replies; no post is pending; and the
    demo history of the session grows by exactly two messages, the user's
    message and the assistant's reply, the list the response returns. *)
Theorem sendChat_failure_falls_back
    (e agentId message : string) (sessionId : option string) (w : World) :
  let r := fst (sendChat (Rejected e) agentId message sessionId w) in
  let w' := snd (sendChat (Rejected e) agentId message sessionId w) in
  let sid := resolveSession agentId sessionId in
  r = fst (mockSendChat agentId message sessionId
             (snd (fetch (PostChat agentId message sessionId) w))) ∧
  steps r = CANNED_STEPS ∧
  Forall (λ s, step_status s = done) (steps r) ∧
  (¬ ∃ s, s ∈ steps r ∧ step_status s = failed) ∧
  reply r ∈ cannedReplies (agentNameOf agentId) ∧
  pending_post r = None ∧
  session_id r = sid ∧
  requests w' = requests w ++ [PostChat agentId message sessionId] ∧
  (∃ u a : ChatMessageOut,
     historyOf w' sid = historyOf w sid ++ [u; a] ∧
     messages r = historyOf w sid ++ [u; a] ∧
     msg_role u = user ∧ msg_content u = message ∧
     msg_role a = assistant ∧ msg_content a = reply r).
Proof.
  intros r w' sid. subst r w'.
  assert (Hs : sendChat (Rejected e) agentId message sessionId w =
               mockSendChat agentId message sessionId
                 (snd (fetch (PostChat agentId message sessionId) w))) by reflexivity.
  rewrite Hs, mockSendChat_eq. cbn [fst snd steps reply pending_post session_id messages requests].
  fold sid. split; [reflexivity |]. split; [reflexivity |]. split; [repeat constructor |].
  split.
  { intros (s & Hin & Hs'). unfold CANNED_STEPS in Hin.
    repeat (apply elem_of_cons in Hin as [-> | Hin]; [discriminate Hs' |]).
    by apply elem_of_nil in Hin. }
  split; [apply pickReply_canned |]. split; [reflexivity |]. split; [reflexivity |].
  split; [reflexivity |].
  eexists _, _. unfold historyOf at 1. cbn [sessionHistory]. rewrite lookup_insert_eq.
  unfold exchange. repeat split; reflexivity.
Qed.

(** C1, as stated, fails: with the backend unreachable, a greeting sent to
    the first demo agent comes back as an ordinary reply whose steps are all
    [done]; no step is [failed]. *)
Lemma sendChat_failure_not_reported :
  ¬ (∃ s, s ∈ steps (fst (sendChat (Rejected "Failed to fetch")
                              "demo-agent-1" "hello" None demoWorld)) ∧
          step_status s = failed) ∧
  Forall (λ s, step_status s = done)
    (steps (fst (sendChat (Rejected "Failed to fetch") "demo-agent-1" "hello" None demoWorld))).
Proof.
  split.
  - intros (s & Hin & Hs). vm_compute in Hin.
    repeat (apply elem_of_cons in Hin as [-> | Hin]; [discriminate Hs |]).
    by apply elem_of_nil in Hin.
  - vm_compute. repeat constructor.
Qed.

(** ** Publish intent on the demo path *)

(** C2, as the demo behaves. For a message with publish intent (the
    lowercased text contains "insight", "post" or "publish"), [mockSendChat]
    answers with the fixed offer to draft an insight and stages nothing: the
    [pending_post] of the response is null. *)
Theorem publish_intent_stages_nothing
    (agentId message : string) (sessionId : option string) (w : World) :
  publishIntent message = true →
  let r := fst (mockSendChat agentId message sessionId w) in
  pending_post r = None ∧ reply r = REPLY_DRAFT ∧ steps r = CANNED_STEPS.
Proof.
  intros Hp r. subst r. rewrite mockSendChat_eq. cbn [fst pending_post reply steps].
  repeat split. unfold pickReply. unfold publishIntent in Hp. cbv zeta in Hp.
  by rewrite Hp.
Qed.

(** C2, as stated, fails: "Please publish this insight" has publish intent,
    and the response carries no pending post. *)
Lemma publish_intent_without_pending_post :
  publishIntent "Please publish this insight" = true ∧
  pending_post (fst (mockSendChat "demo-agent-1" "Please publish this insight"
                       None demoWorld)) = None.
Proof. split; reflexivity. Qed.

(** The publish-intent theorem at "Please publish this insight". *)
Lemma publish_intent_stages_nothing_witness :
  publishIntent "Please publish this insight" = true ∧
  pending_post (fst (mockSendChat "demo-agent-1" "Please publish this insight"
                       None demoWorld)) = None.
Proof.
  split; [reflexivity |].
  exact (proj1 (publish_intent_stages_nothing "demo-agent-1" "Please publish this insight"
                  None demoWorld eq_refl)).
Defined.

(** The cancel theorem on the page that awaits confirmation of [demoPost]. *)
Lemma cancel_clears_and_acknowledges_witness :
  st_pendingPost demoAwaiting = Some demoPost ∧
  st_pendingPost (fst (handleCancelled demoAwaiting demoWorld)) = None ∧
  length (st_messages (fst (handleCancelled demoAwaiting demoWorld))) = 3.
Proof.
  split; [reflexivity |].
  pose proof (cancel_clears_and_acknowledges demoAwaiting demoWorld demoPost eq_refl) as H.
  cbv zeta in H. destruct H as (Hp & _ & Hl & _).
  split; [exact Hp | exact Hl].
Defined.

(** The new-conversation part of the history theorem, on the same page. *)
Lemma history_get_and_clear_witness :
  st_agentId demoAwaiting = Some "demo-agent-1" ∧
  "demo-agent-1" ≠ "" ∧
  st_sessionId demoAwaiting = Some "demo-session-demo-agent-1" ∧
  "demo-session-demo-agent-1" ≠ "" ∧
  st_pendingPost (fst (newConversation (Rejected "Failed to fetch") demoAwaiting
                         (snd (mockSendChat "demo-agent-1" "Please publish this insight"
                                 None demoWorld)))) = None.
Proof.
  split; [reflexivity |]. split; [discriminate |].
  split; [reflexivity |]. split; [discriminate |].
  destruct history_get_and_clear as (_ & _ & _ & H).
  specialize (H "demo-agent-1" "demo-session-demo-agent-1" "Failed to fetch" demoAwaiting
                (snd (mockSendChat "demo-agent-1" "Please publish this insight" None demoWorld))
                eq_refl ltac:(discriminate) eq_refl ltac:(discriminate)).
  cbv zeta in H. destruct H as (_ & Hp & _). exact Hp.
Defined.

(** ** The scope guard *)

Section scope_guard.
Import ScopeGuard.

Lemma evaluate_embedded (cfg : Config) (text : string) (v : Vector) :
  embed cfg text = Some v →
  evaluate cfg text =
    if (threshold cfg <=? cosine_similarity v (reference cfg))%float then inr Accept
    else inr (Reject (cosine_similarity v (reference cfg)) (threshold cfg) (hint cfg)).
Proof. intros He. unfold evaluate. by rewrite He. Qed.

Lemma evaluate_unavailable (cfg : Config) (text : string) :
  embed cfg text = None → evaluate cfg text = inl ProviderUnavailable.
Proof. intros He. unfold evaluate. by rewrite He. Qed.

End scope_guard.

(** C3. For a candidate text the provider embeds as [v], [evaluate] accepts
    if and only if the cosine similarity of [v] against the reference vector
    is at least the threshold; otherwise it rejects, and the rejection
    carries exactly that similarity and the configured threshold; two texts
    with the same embedding get the same verdict and the same similarity. *)
Theorem evaluate_accepts_iff_similar
    (cfg : ScopeGuard.Config) (text : string) (v : ScopeGuard.Vector) :
  ScopeGuard.embed cfg text = Some v →
  let similarity := ScopeGuard.cosine_similarity v (ScopeGuard.reference cfg) in
  (ScopeGuard.evaluate cfg text = inr ScopeGuard.Accept ↔
     (ScopeGuard.threshold cfg <=? similarity)%float = true) ∧
  (ScopeGuard.evaluate cfg text ≠ inr ScopeGuard.Accept ↔
     ScopeGuard.evaluate cfg text =
       inr (ScopeGuard.Reject similarity (ScopeGuard.threshold cfg) (ScopeGuard.hint cfg))) ∧
  (∀ s t h, ScopeGuard.evaluate cfg text = inr (ScopeGuard.Reject s t h) →
     s = similarity ∧ t = ScopeGuard.threshold cfg) ∧
  (∀ text', ScopeGuard.embed cfg text' = ScopeGuard.embed cfg text →
     ScopeGuard.evaluate cfg text' = ScopeGuard.evaluate cfg text).
Proof.
  intros He similarity. rewrite (evaluate_embedded cfg text v He). fold similarity.
  split; [| split; [| split]].
  - destruct (ScopeGuard.threshold cfg <=? similarity)%float; split; congruence.
  - destruct (ScopeGuard.threshold cfg <=? similarity)%float; split; congruence.
  - intros s t h. destruct (ScopeGuard.threshold cfg <=? similarity)%float; [discriminate |].
    intros [= <- <- _]. done.
  - intros text' He'. rewrite He in He'.
    by rewrite (evaluate_embedded cfg text' v He').
Qed.

(** The guard theorem on a text the demo provider places off scope. *)
Lemma evaluate_accepts_iff_similar_witness :
  ScopeGuard.embed ScopeGuard.demoGuard "Sourdough needs a long cold proof"
    = Some [3; 4]%float ∧
  ScopeGuard.evaluate ScopeGuard.demoGuard "Sourdough needs a long cold proof"
    = inr (ScopeGuard.Reject (3 / 5)%float 0.75%float
             "Insights must relate to the platform scope.").
Proof.
  split; [reflexivity |].
  pose proof (evaluate_accepts_iff_similar ScopeGuard.demoGuard
                "Sourdough needs a long cold proof" [3; 4]%float eq_refl) as H.
  cbv zeta in H. destruct H as (_ & Hr & _).
  apply Hr. vm_compute. discriminate.
Defined.

Example evaluate_accepts_on_scope :
  ScopeGuard.evaluate ScopeGuard.demoGuard "Overlapping chunks improve RAG recall"
    = inr ScopeGuard.Accept.
Proof. reflexivity. Qed.

Example evaluate_surfaces_provider_failure :
  ScopeGuard.evaluate ScopeGuard.demoGuard "an unknown text"
    = inl ScopeGuard.ProviderUnavailable.
Proof. reflexivity. Qed.

(** ** The blocker scorer *)

Section blocker_scorer.
Import BlockerScorer.

Lemma score_quotient (queries verified : nat) :
  (score queries verified ==
     inject_Z (Z.of_nat queries) / inject_Z (Z.of_nat (verified + 1)))%Q.
Proof.
  unfold score. replace (verified + 1) with (S verified) by lia.
  change (Z.of_nat (S verified)) with (Z.pos (Pos.of_succ_nat verified)).
  unfold Qeq, Qdiv, Qmult, Qinv, inject_Z. cbn. lia.
Qed.

Lemma elem_of_candidates (queryLog : gmap string nat) (insights : list InsightRow)
    (b : BlockerItem) :
  b ∈ candidates queryLog insights ↔
  ∃ t n, queryLog !! t = Some n ∧ 0 < n ∧ b = mkItem insights (t, n).
Proof.
  unfold candidates. rewrite list_elem_of_fmap. split.
  - intros ([t n] & -> & Hin). apply list_elem_of_In, filter_In in Hin as [Hin Hpos].
    apply list_elem_of_In, elem_of_map_to_list in Hin.
    apply Nat.ltb_lt in Hpos. cbn in Hpos. by exists t, n.
  - intros (t & n & Hl & Hpos & ->). exists (t, n). split; [done |].
    apply list_elem_of_In, filter_In. split.
    + by apply list_elem_of_In, elem_of_map_to_list.
    + by apply Nat.ltb_lt.
Qed.

(** *** The comparison decides the ordering of the specification *)

Lemma string_leb_trans (s1 s2 s3 : string) :
  String.leb s1 s2 = true → String.leb s2 s3 = true → String.leb s1 s3 = true.
Proof.
  unfold String.leb. revert s2 s3.
  induction s1 as [|a s1 IH]; intros [|b s2] [|c s3]; cbn; try done.
  unfold Ascii.compare.
  destruct (N.compare_spec (Ascii.N_of_ascii a) (Ascii.N_of_ascii b)) as [Hab|Hab|Hab];
    destruct (N.compare_spec (Ascii.N_of_ascii b) (Ascii.N_of_ascii c)) as [Hbc|Hbc|Hbc];
    destruct (N.compare_spec (Ascii.N_of_ascii a) (Ascii.N_of_ascii c)) as [Hac|Hac|Hac];
    try done; try lia.
  apply IH.
Qed.

Lemma before_ranksBefore (a b : BlockerItem) : before a b = true ↔ ranksBefore a b.
Proof.
  unfold before, compareItems, ranksBefore, String.leb.
  destruct (blocker_score b ?= blocker_score a)%Q eqn:Hs.
  - apply Qeq_alt in Hs.
    destruct (Nat.compare_spec (query_count b) (query_count a)) as [Hq|Hq|Hq].
    + split.
      * intros Hc. right. split; [by symmetry |]. right. split; [done |].
        by destruct (String.compare (topic a) (topic b)).
      * intros [Hlt | (_ & [Hlt | (_ & Hc)])].
        -- rewrite Hs in Hlt. by apply Qlt_irrefl in Hlt.
        -- lia.
        -- by destruct (String.compare (topic a) (topic b)).
    + split; [| done]. intros _. right. split; [by symmetry |]. by left.
    + split; [done |]. intros [Hlt | (_ & [Hlt | (Heq & _)])]; [| lia | lia].
      rewrite Hs in Hlt. by apply Qlt_irrefl in Hlt.
  - apply Qlt_alt in Hs. split; [| done]. intros _. by left.
  - apply Qgt_alt in Hs. split; [done |].
    intros [Hlt | (Heq & _)].
    + destruct (Qlt_irrefl _ (Qlt_trans _ _ _ Hlt Hs)).
    + rewrite Heq in Hs. by apply Qlt_irrefl in Hs.
Qed.

Lemma ranksBefore_total (a b : BlockerItem) : ranksBefore a b ∨ ranksBefore b a.
Proof.
  unfold ranksBefore.
  destruct (Q_dec (blocker_score a) (blocker_score b)) as [[Hlt | Hgt] | Heq].
  - right. by left.
  - left. by left.
  - destruct (Nat.lt_total (query_count a) (query_count b)) as [Hq | [Hq | Hq]].
    + right. right. split; [by symmetry |]. by left.
    + destruct (String.leb_total (topic a) (topic b)) as [Ht | Ht].
      * left. right. split; [done |]. right. by split.
      * right. right. split; [by symmetry |]. right. by split.
    + left. right. split; [done |]. by left.
Qed.

#[local] Instance ranksBefore_trans : Transitive ranksBefore.
Proof.
  intros a b c Hab Hbc. unfold ranksBefore in *.
  destruct Hab as [Hab | (Eab & Hab)]; destruct Hbc as [Hbc | (Ebc & Hbc)].
  - left. by eapply Qlt_trans.
  - left. by rewrite <- Ebc.
  - left. by rewrite Eab.
  - right. split; [by rewrite Eab |].
    destruct Hab as [Hab | (Qab & Tab)]; destruct Hbc as [Hbc | (Qbc & Tbc)].
    + left. lia.
    + left. lia.
    + left. lia.
    + right. split; [lia |]. by eapply string_leb_trans.
Qed.

Lemma not_before_ranksBefore (a b : BlockerItem) : before a b = false → ranksBefore b a.
Proof.
  intros Hf. destruct (ranksBefore_total a b) as [Hab | Hba]; [| done].
  apply before_ranksBefore in Hab. congruence.
Qed.

(** *** Insertion keeps a list sorted and only adds the new item *)

Lemma insert_perm (x : BlockerItem) (l : list BlockerItem) : insert x l ≡ₚ x :: l.
Proof.
  induction l as [|y l IH]; cbn; [done |].
  destruct (before x y); [done |]. rewrite IH. apply Permutation_swap.
Qed.

Lemma sort_perm (l : list BlockerItem) : sort l ≡ₚ l.
Proof.
  induction l as [|x l IH]; cbn; [done |]. by rewrite insert_perm, IH.
Qed.

Lemma insert_sorted (x : BlockerItem) (l : list BlockerItem) :
  StronglySorted ranksBefore l → StronglySorted ranksBefore (insert x l).
Proof.
  induction l as [|y l IH]; intros Hs; cbn.
  - repeat constructor.
  - apply StronglySorted_cons in Hs as [Hy Hl].
    destruct (before x y) eqn:Hxy.
    + apply before_ranksBefore in Hxy. constructor.
      * by constructor.
      * constructor; [done |].
        eapply Forall_impl; [exact Hy |]. intros z Hyz. by transitivity y.
    + apply not_before_ranksBefore in Hxy. constructor; [by apply IH |].
      rewrite insert_perm. by constructor.
Qed.

Lemma sort_sorted (l : list BlockerItem) : StronglySorted ranksBefore (sort l).
Proof.
  induction l as [|x l IH]; cbn; [constructor | by apply insert_sorted].
Qed.

Lemma take_sorted (n : nat) (l : list BlockerItem) :
  StronglySorted ranksBefore l → StronglySorted ranksBefore (take n l).
Proof.
  intros Hs. rewrite <- (take_drop n l) in Hs. by apply StronglySorted_app_1_l in Hs.
Qed.

Lemma length_candidates (queryLog : gmap string nat) (insights : list InsightRow) :
  length (candidates queryLog insights) ≤ size queryLog.
Proof.
  unfold candidates. rewrite length_fmap, <- length_map_to_list.
  apply filter_length_le.
Qed.

Lemma rank_all (queryLog : gmap string nat) (insights : list InsightRow) :
  rank queryLog insights (size queryLog) ≡ₚ candidates queryLog insights.
Proof.
  unfold rank. rewrite take_ge; [apply sort_perm |].
  rewrite sort_perm. apply length_candidates.
Qed.

End blocker_scorer.

(** C4. A topic appears among the candidates, and in the full ranking,
    exactly when the query log counts more than zero queries for it; every
    candidate carries the logged query count, the number of verified
    insights of its topic, and the score query_count /
    (verified_insight_count + 1) as an exact rational. Twelve queries and no
    verified insight score 12; twelve queries and one verified insight
    score 6. *)
Theorem candidates_and_scores
    (queryLog : gmap string nat) (insights : list BlockerScorer.InsightRow) :
  (∀ t : string,
     (∃ b, b ∈ BlockerScorer.candidates queryLog insights ∧ BlockerScorer.topic b = t) ↔
     (∃ n, queryLog !! t = Some n ∧ 0 < n)) ∧
  (∀ t : string,
     (∃ b, b ∈ BlockerScorer.rank queryLog insights (size queryLog) ∧
           BlockerScorer.topic b = t) ↔
     (∃ n, queryLog !! t = Some n ∧ 0 < n)) ∧
  (∀ b : BlockerScorer.BlockerItem,
     b ∈ BlockerScorer.candidates queryLog insights →
     queryLog !! BlockerScorer.topic b = Some (BlockerScorer.query_count b) ∧
     0 < BlockerScorer.query_count b ∧
     BlockerScorer.verified_insight_count b =
       BlockerScorer.verifiedCount insights (BlockerScorer.topic b) ∧
     (BlockerScorer.blocker_score b ==
        inject_Z (Z.of_nat (BlockerScorer.query_count b)) /
        inject_Z (Z.of_nat (BlockerScorer.verified_insight_count b + 1)))%Q) ∧
  (BlockerScorer.score 12 0 == 12)%Q ∧
  (BlockerScorer.score 12 1 == 6)%Q.
Proof.
  assert (Hc : ∀ t : string,
     (∃ b, b ∈ BlockerScorer.candidates queryLog insights ∧ BlockerScorer.topic b = t) ↔
     (∃ n, queryLog !! t = Some n ∧ 0 < n)).
  { intros t. split.
    - intros (b & Hin & <-). apply elem_of_candidates in Hin as (t & n & Hl & Hpos & ->).
      by exists n.
    - intros (n & Hl & Hpos). exists (BlockerScorer.mkItem insights (t, n)).
      split; [| done]. apply elem_of_candidates. by exists t, n. }
  split; [exact Hc |]. split; [| split; [| split]].
  - intros t. rewrite <- Hc. by setoid_rewrite rank_all.
  - intros b Hin. apply elem_of_candidates in Hin as (t & n & Hl & Hpos & ->). cbn.
    repeat split; [done | done |]. apply score_quotient.
  - reflexivity.
  - reflexivity.
Qed.

(** The published example in the demo aggregates: twelve queries for "Tool
    Use in LLM Agents" and one verified insight on the topic. *)
Lemma candidates_and_scores_witness :
  BlockerScorer.mkItem BlockerScorer.demoInsights ("Tool Use in LLM Agents", 12)
    ∈ BlockerScorer.candidates BlockerScorer.demoQueryLog BlockerScorer.demoInsights ∧
  (BlockerScorer.blocker_score
     (BlockerScorer.mkItem BlockerScorer.demoInsights ("Tool Use in LLM Agents", 12%nat)) ==
   inject_Z 12 / inject_Z 2)%Q.
Proof.
  assert (Hin : BlockerScorer.mkItem BlockerScorer.demoInsights ("Tool Use in LLM Agents", 12)
    ∈ BlockerScorer.candidates BlockerScorer.demoQueryLog BlockerScorer.demoInsights).
  { vm_compute. repeat constructor. }
  split; [exact Hin |].
  destruct (candidates_and_scores BlockerScorer.demoQueryLog BlockerScorer.demoInsights)
    as (_ & _ & H & _).
  destruct (H _ Hin) as (_ & _ & _ & Hs). exact Hs.
Defined.

(** C5. For every limit and every pair of aggregates, [rank] returns at most
    [limit] items, sorted by descending score, ties by descending query
    count, remaining ties by ascending topic; the items are the first
    [limit] of the candidates in that order. *)
Theorem rank_sorted_and_bounded
    (queryLog : gmap string nat) (insights : list BlockerScorer.InsightRow) (limit : nat) :
  length (BlockerScorer.rank queryLog insights limit) ≤ limit ∧
  StronglySorted BlockerScorer.ranksBefore (BlockerScorer.rank queryLog insights limit) ∧
  length (BlockerScorer.rank queryLog insights limit) =
    limit `min` length (BlockerScorer.candidates queryLog insights) ∧
  ∃ rest : list BlockerScorer.BlockerItem,
    BlockerScorer.rank queryLog insights limit ++ rest
      ≡ₚ BlockerScorer.candidates queryLog insights ∧
    Forall (λ b, Forall (BlockerScorer.ranksBefore b) rest)
      (BlockerScorer.rank queryLog insights limit).
Proof.
  unfold BlockerScorer.rank.
  pose proof (sort_sorted (BlockerScorer.candidates queryLog insights)) as Hs.
  pose proof (sort_perm (BlockerScorer.candidates queryLog insights)) as Hp.
  split; [| split; [| split]].
  - rewrite length_take. lia.
  - by apply take_sorted.
  - by rewrite length_take, Hp.
  - exists (drop limit (BlockerScorer.sort (BlockerScorer.candidates queryLog insights))).
    rewrite take_drop. split; [exact Hp |].
    rewrite <- (take_drop limit) in Hs. apply StronglySorted_app in Hs as (Hx & _ & _).
    apply Forall_forall. intros b Hb. apply Forall_forall. intros c Hc. by apply Hx.
Qed.

Example rank_published_example :
  BlockerScorer.rank {[ "Tool Use in LLM Agents" := 12 ]} [] 10 =
  [ {| BlockerScorer.topic := "Tool Use in LLM Agents";
       BlockerScorer.query_count := 12;
       BlockerScorer.verified_insight_count := 0;
       BlockerScorer.blocker_score := 12 |} ].
Proof. reflexivity. Qed.

Example rank_demo :
  BlockerScorer.topic <$> BlockerScorer.rank BlockerScorer.demoQueryLog BlockerScorer.demoInsights 10
    = ["Tool Use in LLM Agents"; "Prompt caching"].
Proof. reflexivity. Qed.


(* ===================================================================== *)
(** * Further properties of the client *)
(* ===================================================================== *)

#[local] Arguments agentNameOf : simpl never.
#[local] Arguments pickReply : simpl never.
#[local] Arguments exchange : simpl never.
#[local] Arguments lastAssistantIdx : simpl never.

(** ** Strings *)

Lemma string_app_cons (c : Ascii.ascii) (s t : string) :
  String c s +:+ t = String c (s +:+ t).
Proof. reflexivity. Qed.

Lemma string_app_assoc (s t u : string) : (s +:+ t) +:+ u = s +:+ (t +:+ u).
Proof.
  induction s as [|c s IH]; [reflexivity |].
  by rewrite !string_app_cons, IH.
Qed.

Lemma string_app_nil_r (s : string) : s +:+ "" = s.
Proof. induction s as [|c s IH]; [reflexivity |]. by rewrite string_app_cons, IH. Qed.

(** ** The guard of [send] *)

Lemma not_blocked_ready (st : ChatState) :
  ¬ sendBlocked st →
  ∃ agentId, st_agentId st = Some agentId ∧ agentId ≠ "" ∧
    Js.trim (st_input st) ≠ "" ∧ st_loading st = false.
Proof.
  unfold sendBlocked. intros Hn.
  destruct (st_agentId st) as [agentId|] eqn:Ha; [| tauto].
  exists agentId. split; [done |]. split; [| split].
  - intros ->. tauto.
  - tauto.
  - destruct (st_loading st); [tauto | done].
Qed.

Lemma send_ready (net : Fetched ChatResponse) (agentId : string) (st : ChatState) (w : World) :
  st_agentId st = Some agentId → agentId ≠ "" →
  Js.trim (st_input st) ≠ "" → st_loading st = false →
  send net st w =
    let text := Js.trim (st_input st) in
    let '(res, w2) := sendChat net agentId text (st_sessionId st)
                        (snd (nowISO (snd (randomUUID w)))) in
    ({| st_agentId := st_agentId st;
        st_agent := st_agent st;
        st_messages := messages res;
        st_input := "";
        st_sessionId := Some (session_id res);
        st_loading := false;
        st_agentLoading := st_agentLoading st;
        st_error := "";
        st_lastSteps := steps res;
        st_pendingPost := pending_post res |},
     with_sessionStorage <[SESSION_KEY agentId := session_id res]> w2).
Proof.
  intros Ha Hna Hin Hl. unfold send. rewrite Ha, Hl.
  destruct agentId as [|ca agentId]; [done |].
  destruct (Js.trim (st_input st)) as [|ci text] eqn:Ht; [done |].
  cbn [Js.truthy negb orb]. run_world.
  by destruct (sendChat net _ _ _ _).
Qed.

Lemma historyOf_stored (m : gmap string (list ChatMessageOut)) (ss : gmap string string)
    (ids : nat → string) (n : nat) (times : nat → string) (k : nat) (rq : list Request)
    (sid : string) (l : list ChatMessageOut) :
  historyOf {| sessionHistory := <[sid := l]> m; sessionStorage := ss;
               uuids := ids; uuids_drawn := n; clock := times; clock_reads := k;
               requests := rq |} sid = l.
Proof. unfold historyOf. cbn. by rewrite lookup_insert_eq. Qed.

Lemma send_fallback_eq (e agentId : string) (st : ChatState) (w : World) :
  st_agentId st = Some agentId → agentId ≠ "" →
  Js.trim (st_input st) ≠ "" → st_loading st = false →
  send (Rejected e) st w =
    let text := Js.trim (st_input st) in
    let sid := resolveSession agentId (st_sessionId st) in
    let w1 := snd (nowISO (snd (randomUUID w))) in
    let updated := historyOf w sid ++ exchange w1 text (agentNameOf agentId) in
    ({| st_agentId := st_agentId st;
        st_agent := st_agent st;
        st_messages := updated;
        st_input := "";
        st_sessionId := Some sid;
        st_loading := false;
        st_agentLoading := st_agentLoading st;
        st_error := "";
        st_lastSteps := CANNED_STEPS;
        st_pendingPost := None |},
     {| sessionHistory := <[sid := updated]> (sessionHistory w);
        sessionStorage := <[SESSION_KEY agentId := sid]> (sessionStorage w);
        uuids := uuids w; uuids_drawn := S (S (S (uuids_drawn w)));
        clock := clock w; clock_reads := S (S (S (clock_reads w)));
        requests := requests w ++ [PostChat agentId text (st_sessionId st)] |}).
Proof.
  intros Ha Hna Hin Hl. rewrite (send_ready _ agentId st w Ha Hna Hin Hl).
  cbv zeta. unfold sendChat. run_world. by rewrite mockSendChat_eq.
Qed.

Lemma send_blocked_eq (net : Fetched ChatResponse) (st : ChatState) (w : World) :
  sendBlocked st → send net st w = (st, w).
Proof.
  intros [Ha | [Ha | [Hb | Hl]]]; unfold send.
  - by rewrite Ha.
  - by rewrite Ha.
  - rewrite Hb. destruct (st_agentId st) as [a|]; [| done].
    by destruct (Js.truthy a).
  - rewrite Hl. destruct (st_agentId st) as [a|]; [| done].
    by rewrite orb_true_r.
Qed.

(** X1. [send] does nothing at all when there is no agent id, when the
    input trims to the empty string, or while a request is in flight: the
    page and the world are unchanged, no request is sent and no id is drawn.
    In every other case, whatever the outcome of the request, exactly one
    chat request leaves, carrying the trimmed input and the page's session
    id. *)
Theorem send_only_when_ready (net : Fetched ChatResponse) (st : ChatState) (w : World) :
  (sendBlocked st → send net st w = (st, w)) ∧
  (¬ sendBlocked st →
   ∃ agentId, st_agentId st = Some agentId ∧
     requests (snd (send net st w)) =
       requests w ++ [PostChat agentId (Js.trim (st_input st)) (st_sessionId st)]).
Proof.
  split; [apply send_blocked_eq |].
  intros Hn. destruct (not_blocked_ready st Hn) as (agentId & Ha & Hna & Hin & Hl).
  exists agentId. split; [done |].
  rewrite (send_ready net agentId st w Ha Hna Hin Hl). cbv zeta.
  unfold sendChat. run_world. destruct net as [res | e]; [done |].
  by rewrite mockSendChat_eq.
Qed.

(** Spaces only, a no-break space and an ideographic space among them:
    nothing is sent. *)
Lemma send_only_when_ready_witness :
  sendBlocked demoBlank ∧
  send (Rejected "Failed to fetch") demoBlank demoWorld = (demoBlank, demoWorld).
Proof.
  assert (Hb : sendBlocked demoBlank) by (right; right; left; reflexivity).
  split; [exact Hb |].
  exact (proj1 (send_only_when_ready (Rejected "Failed to fetch") demoBlank demoWorld) Hb).
Defined.


(** ** The chat page over the demo fallback *)

(** X2. With the backend unreachable, a [send] that passes the guard adopts
    the session id of the response (the one supplied, or the one the demo
    minted), stores it in [sessionStorage], and shows the stored history of
    that session: what it held before, the trimmed input as the user
    message, and the canned reply. No post is pending afterwards, the input
    is cleared, and one request has been sent. *)
Theorem send_adopts_session (e agentId : string) (st : ChatState) (w : World) :
  st_agentId st = Some agentId → agentId ≠ "" →
  Js.trim (st_input st) ≠ "" → st_loading st = false →
  let st' := fst (send (Rejected e) st w) in
  let w' := snd (send (Rejected e) st w) in
  let sid := resolveSession agentId (st_sessionId st) in
  st_sessionId st' = Some sid ∧
  sessionStorage w' !! SESSION_KEY agentId = Some sid ∧
  st_messages st' = historyOf w' sid ∧
  (∃ added, st_messages st' = historyOf w sid ++ added ∧
     transcript added =
       [(user, Js.trim (st_input st));
        (assistant, pickReply (Js.trim (st_input st)) (agentNameOf agentId))]) ∧
  st_pendingPost st' = None ∧
  st_lastSteps st' = CANNED_STEPS ∧
  st_input st' = "" ∧
  st_loading st' = false ∧
  requests w' = requests w ++ [PostChat agentId (Js.trim (st_input st)) (st_sessionId st)].
Proof.
  intros Ha Hna Hin Hl st' w' sid. subst st' w'.
  rewrite (send_fallback_eq e agentId st w Ha Hna Hin Hl). cbn. fold sid.
  repeat split.
  - by rewrite lookup_insert_eq.
  - unfold historyOf. cbn. by rewrite lookup_insert_eq.
  - eexists. split; reflexivity.
Qed.

(** X3. Two sends in a row from a page without a session, the backend
    unreachable both times: the first request carries no session id, the
    second carries the id the first one received, and what the page shows
    after the second starts with everything it showed after the first,
    followed by two more messages. *)
Theorem send_twice_continues (e1 e2 agentId input2 : string) (st : ChatState) (w : World) :
  st_agentId st = Some agentId → agentId ≠ "" →
  Js.trim (st_input st) ≠ "" → Js.trim input2 ≠ "" →
  st_loading st = false → st_sessionId st = None →
  let st1 := fst (send (Rejected e1) st w) in
  let w1 := snd (send (Rejected e1) st w) in
  let st2 := fst (send (Rejected e2) (setInput input2 st1) w1) in
  let w2 := snd (send (Rejected e2) (setInput input2 st1) w1) in
  st_sessionId st1 = Some ("demo-session-" +:+ agentId) ∧
  st_sessionId st2 = st_sessionId st1 ∧
  requests w2 =
    requests w ++ [PostChat agentId (Js.trim (st_input st)) None;
                   PostChat agentId (Js.trim input2) (Some ("demo-session-" +:+ agentId))] ∧
  st_messages st1 `prefix_of` st_messages st2 ∧
  length (st_messages st2) = length (st_messages st1) + 2.
Proof.
  intros Ha Hna Hin Hin2 Hl Hs st1 w1 st2 w2. subst w2 st2 st1 w1.
  rewrite (send_fallback_eq e1 agentId st w Ha Hna Hin Hl). cbn [fst snd].
  rewrite Hs. cbn [resolveSession default from_option].
  erewrite (send_fallback_eq e2 agentId); [| exact Ha | exact Hna | exact Hin2 | reflexivity].
  cbn [fst snd st_sessionId st_messages st_input setInput resolveSession default from_option id
       requests].
  split; [done |]. split; [done |]. split; [by rewrite <- app_assoc |].
  rewrite historyOf_stored. split.
  - by eexists.
  - rewrite (length_app (_ ++ _)). reflexivity.
Qed.

(** The fallback send on the page with "  hello there " typed. *)
Lemma send_adopts_session_witness :
  st_agentId demoTyping = Some "demo-agent-1" ∧ "demo-agent-1" ≠ "" ∧
  Js.trim (st_input demoTyping) ≠ "" ∧ st_loading demoTyping = false ∧
  st_sessionId (fst (send (Rejected "Failed to fetch") demoTyping demoWorld))
    = Some "demo-session-demo-agent-1".
Proof.
  split; [reflexivity |]. split; [discriminate |].
  split; [vm_compute; discriminate |]. split; [reflexivity |].
  exact (proj1 (send_adopts_session "Failed to fetch" "demo-agent-1" demoTyping demoWorld
                  eq_refl ltac:(discriminate) ltac:(vm_compute; discriminate) eq_refl)).
Defined.

(** Two fallback sends in a row from the same page. *)
Lemma send_twice_continues_witness :
  st_agentId demoTyping = Some "demo-agent-1" ∧ "demo-agent-1" ≠ "" ∧
  Js.trim (st_input demoTyping) ≠ "" ∧ Js.trim "and again" ≠ "" ∧
  st_loading demoTyping = false ∧ st_sessionId demoTyping = None ∧
  st_sessionId (fst (send (Rejected "Failed to fetch") demoTyping demoWorld))
    = Some ("demo-session-" +:+ "demo-agent-1").
Proof.
  split; [reflexivity |]. split; [discriminate |].
  split; [vm_compute; discriminate |]. split; [vm_compute; discriminate |].
  split; [reflexivity |]. split; [reflexivity |].
  exact (proj1 (send_twice_continues "Failed to fetch" "Failed to fetch" "demo-agent-1"
                  "and again" demoTyping demoWorld
                  eq_refl ltac:(discriminate) ltac:(vm_compute; discriminate)
                  ltac:(vm_compute; discriminate) eq_refl eq_refl)).
Defined.

(** ** Confirming a pending post *)

(** X4. A confirmation the backend does not accept changes nothing on the
    page: the pending post stays staged and the messages are as before. The
    card shows a message that is never empty (the error's own, or "Failed to
    post."), exactly one confirm request went out with the page's session
    id, and the demo histories are untouched: there is no demo fallback for
    confirming. *)
Theorem confirm_failure_keeps_pending
    (message agentId : string) (pending : PendingPost) (st : ChatState) (w : World) :
  let '(st', card, w') := handleConfirm (Rejected message) agentId pending st w in
  st' = st ∧
  confirmError card ≠ "" ∧
  ((message = "" ∧ confirmError card = "Failed to post.") ∨
   (message ≠ "" ∧ confirmError card = message)) ∧
  confirming card = false ∧
  requests w' = requests w ++ [PostConfirm agentId pending (st_sessionId st)] ∧
  sessionHistory w' = sessionHistory w ∧
  uuids_drawn w' = uuids_drawn w.
Proof.
  unfold handleConfirm, confirmPost. run_world.
  destruct message as [|c message]; cbn; repeat split; try done.
  - by left.
  - by right.
Qed.

(** X5. A confirmation the backend accepts appends exactly one assistant
    message, the reply of the response, after the messages already shown,
    clears the pending post and shows the steps of the response; the
    messages, the session id and the pending post of the response are not
    used, the session id of the page stays, and the demo histories are
    untouched. *)
Theorem confirm_success_appends_reply
    (res : ChatResponse) (agentId : string) (pending : PendingPost) (st : ChatState) (w : World) :
  let '(st', card, w') := handleConfirm (Resolved res) agentId pending st w in
  (∃ m : ChatMessageOut,
     st_messages st' = st_messages st ++ [m] ∧
     msg_role m = assistant ∧ msg_content m = reply res ∧
     msg_id m = uuids w (uuids_drawn w)) ∧
  st_pendingPost st' = None ∧
  st_lastSteps st' = steps res ∧
  st_sessionId st' = st_sessionId st ∧
  confirmError card = "" ∧
  requests w' = requests w ++ [PostConfirm agentId pending (st_sessionId st)] ∧
  sessionHistory w' = sessionHistory w ∧
  sessionStorage w' = sessionStorage w.
Proof.
  unfold handleConfirm, confirmPost, handleConfirmed. run_world.
  repeat split. eexists. repeat split.
Qed.

(** ** What the next message does to the page *)

(** X6. The acknowledgement of a cancelled post and the confirmation message
    of a confirmed one live on the page only. With the backend unreachable,
    the next [send] shows the stored history of the session, so after it the
    conversation reads exactly as if the card had never been answered. *)
Theorem card_messages_forgotten_by_next_send
    (e agentId reply : string) (steps : list AgentStep) (st : ChatState) (w : World) :
  st_agentId st = Some agentId → agentId ≠ "" →
  Js.trim (st_input st) ≠ "" → st_loading st = false →
  let plain := st_messages (fst (send (Rejected e) st w)) in
  let '(stc, wc) := handleCancelled st w in
  let '(stk, wk) := handleConfirmed reply steps st w in
  length (st_messages stc) = S (length (st_messages st)) ∧
  length (st_messages stk) = S (length (st_messages st)) ∧
  transcript (st_messages (fst (send (Rejected e) stc wc))) = transcript plain ∧
  transcript (st_messages (fst (send (Rejected e) stk wk))) = transcript plain.
Proof.
  intros Ha Hna Hin Hl plain. subst plain.
  unfold handleCancelled, handleConfirmed. run_world.
  rewrite (send_fallback_eq e agentId st w Ha Hna Hin Hl).
  erewrite (send_fallback_eq e agentId); [| exact Ha | exact Hna | exact Hin | exact Hl].
  erewrite (send_fallback_eq e agentId); [| exact Ha | exact Hna | exact Hin | exact Hl].
  cbn. rewrite !length_app, !transcript_app. cbn. repeat split; lia.
Qed.

Lemma card_messages_forgotten_by_next_send_witness :
  st_agentId demoTyping = Some "demo-agent-1" ∧ "demo-agent-1" ≠ "" ∧
  Js.trim (st_input demoTyping) ≠ "" ∧ st_loading demoTyping = false ∧
  transcript (st_messages (fst (send (Rejected "Failed to fetch")
                                  (fst (handleCancelled demoTyping demoWorld))
                                  (snd (handleCancelled demoTyping demoWorld))))) =
  transcript (st_messages (fst (send (Rejected "Failed to fetch") demoTyping demoWorld))).
Proof.
  split; [reflexivity |]. split; [discriminate |].
  split; [vm_compute; discriminate |]. split; [reflexivity |].
  pose proof (card_messages_forgotten_by_next_send "Failed to fetch" "demo-agent-1"
                "Posted." [] demoTyping demoWorld
                eq_refl ltac:(discriminate) ltac:(vm_compute; discriminate) eq_refl) as H.
  cbv zeta in H.
  destruct (handleCancelled demoTyping demoWorld) as [stc wc].
  destruct (handleConfirmed "Posted." [] demoTyping demoWorld) as [stk wk].
  destruct H as (_ & _ & Hc & _). exact Hc.
Defined.

(** ** Starting over, and coming back *)


Lemma truthy_nonempty (s : string) : s ≠ "" → Js.truthy s = true.
Proof. by destruct s. Qed.

Lemma newConversation_eq (net : Fetched unit) (agentId sid : string) (st : ChatState) (w : World) :
  st_agentId st = Some agentId → agentId ≠ "" →
  st_sessionId st = Some sid → sid ≠ "" →
  newConversation net st w =
    ({| st_agentId := st_agentId st;
        st_agent := st_agent st;
        st_messages := [];
        st_input := st_input st;
        st_sessionId := None;
        st_loading := st_loading st;
        st_agentLoading := st_agentLoading st;
        st_error := "";
        st_lastSteps := [];
        st_pendingPost := None |},
     {| sessionHistory :=
          if isRejected net then delete sid (sessionHistory w) else sessionHistory w;
        sessionStorage := delete (SESSION_KEY agentId) (sessionStorage w);
        uuids := uuids w; uuids_drawn := uuids_drawn w;
        clock := clock w; clock_reads := clock_reads w;
        requests := requests w ++ [DeleteHistory agentId sid] |}).
Proof.
  intros Ha Hna Hs Hne. unfold newConversation. rewrite Ha, Hs.
  rewrite (truthy_nonempty agentId Hna), (truthy_nonempty sid Hne).
  cbn [negb]. run_world. by destruct net.
Qed.

(** X7. "New chat" on a page whose session is the one the demo minted,
    followed by a message while the backend is unreachable. If the DELETE
    request itself failed, the demo log was cleared and the new conversation
    holds just the new exchange. If the DELETE request went through, the
    demo log was left alone, the demo mints the same id again, and the new
    conversation shows the whole old log before the new exchange. Either way
    the page is empty in between, without session id and pending post, and
    the saved session id is removed. *)
Theorem new_chat_then_send
    (e1 e2 agentId input2 : string) (st : ChatState) (w : World) :
  st_agentId st = Some agentId → agentId ≠ "" →
  st_sessionId st = Some ("demo-session-" +:+ agentId) →
  Js.trim input2 ≠ "" → st_loading st = false →
  let turn := [(user, Js.trim input2);
               (assistant, pickReply (Js.trim input2) (agentNameOf agentId))] in
  let '(stF, wF) := newConversation (Rejected e1) st w in
  let '(stR, wR) := newConversation (Resolved ()) st w in
  st_messages stF = [] ∧ st_messages stR = [] ∧
  st_sessionId stF = None ∧ st_sessionId stR = None ∧
  st_pendingPost stF = None ∧ st_pendingPost stR = None ∧
  sessionStorage wF !! SESSION_KEY agentId = None ∧
  sessionStorage wR !! SESSION_KEY agentId = None ∧
  transcript (st_messages (fst (send (Rejected e2) (setInput input2 stF) wF))) = turn ∧
  transcript (st_messages (fst (send (Rejected e2) (setInput input2 stR) wR))) =
    transcript (historyOf w ("demo-session-" +:+ agentId)) ++ turn.
Proof.
  intros Ha Hna Hs Hin Hl turn.
  assert (Hm : "demo-session-" +:+ agentId ≠ "") by done.
  rewrite !(newConversation_eq _ agentId _ st w Ha Hna Hs Hm). cbn [isRejected].
  erewrite (send_fallback_eq e2 agentId); [| exact Ha | exact Hna | exact Hin | exact Hl].
  erewrite (send_fallback_eq e2 agentId); [| exact Ha | exact Hna | exact Hin | exact Hl].
  cbn [fst st_messages st_sessionId st_pendingPost setInput sessionStorage
       resolveSession default from_option].
  repeat split.
  - apply lookup_delete_eq.
  - apply lookup_delete_eq.
  - rewrite transcript_app. unfold historyOf. cbn [sessionHistory].
    by rewrite lookup_delete_eq.
  - by rewrite transcript_app.
Qed.

Lemma new_chat_then_send_witness :
  st_agentId demoAwaiting = Some "demo-agent-1" ∧ "demo-agent-1" ≠ "" ∧
  st_sessionId demoAwaiting = Some ("demo-session-" +:+ "demo-agent-1") ∧
  Js.trim " next question " ≠ "" ∧ st_loading demoAwaiting = false ∧
  st_messages (fst (newConversation (Rejected "Failed to fetch") demoAwaiting demoWorld)) = [].
Proof.
  split; [reflexivity |]. split; [discriminate |]. split; [reflexivity |].
  split; [vm_compute; discriminate |]. split; [reflexivity |].
  pose proof (new_chat_then_send "Failed to fetch" "Failed to fetch" "demo-agent-1"
                " next question " demoAwaiting demoWorld
                eq_refl ltac:(discriminate) eq_refl ltac:(vm_compute; discriminate) eq_refl) as H.
  cbv zeta in H.
  destruct (newConversation (Rejected "Failed to fetch") demoAwaiting demoWorld) as [stF wF].
  destruct (newConversation (Resolved ()) demoAwaiting demoWorld) as [stR wR].
  exact (proj1 H).
Defined.

(** X8. Leaving the chat page and coming back. After a [send] that fell back
    to the demo, mounting a fresh page for the same agent (the history
    request failing as well) finds the session id that [send] saved in
    [sessionStorage] and restores exactly the messages the page showed,
    under the same session id; one history request is sent and the demo
    histories are not changed. *)
Theorem remount_restores
    (e e' agentId : string) (netAgents : Fetched AgentDirectoryResponse)
    (st : ChatState) (w : World) :
  st_agentId st = Some agentId → agentId ≠ "" →
  Js.trim (st_input st) ≠ "" → st_loading st = false →
  resolveSession agentId (st_sessionId st) ≠ "" →
  let '(st1, w1) := send (Rejected e) st w in
  let '(st2, w2) := mountEffect netAgents (Rejected e') (initialChat (Some agentId)) w1 in
  st_sessionId st2 = st_sessionId st1 ∧
  st_messages st2 = st_messages st1 ∧
  st_agentLoading st2 = false ∧
  st_pendingPost st2 = None ∧
  requests w2 =
    requests w1 ++ [GetHistory agentId (resolveSession agentId (st_sessionId st))] ∧
  sessionHistory w2 = sessionHistory w1.
Proof.
  intros Ha Hna Hin Hl Hsid.
  rewrite (send_fallback_eq e agentId st w Ha Hna Hin Hl). cbv zeta.
  unfold mountEffect. cbn [st_agentId initialChat].
  rewrite (truthy_nonempty agentId Hna). cbn [negb]. run_world.
  rewrite lookup_insert_eq. rewrite (truthy_nonempty _ Hsid).
  unfold getChatHistory. run_world. rewrite mockGetChatHistory_eq, historyOf_stored.
  cbn. repeat split.
Qed.

Lemma remount_restores_witness :
  st_agentId demoTyping = Some "demo-agent-1" ∧ "demo-agent-1" ≠ "" ∧
  Js.trim (st_input demoTyping) ≠ "" ∧ st_loading demoTyping = false ∧
  resolveSession "demo-agent-1" (st_sessionId demoTyping) ≠ "" ∧
  st_messages (fst (mountEffect (Rejected "Failed to fetch") (Rejected "Failed to fetch")
                      (initialChat (Some "demo-agent-1"))
                      (snd (send (Rejected "Failed to fetch") demoTyping demoWorld)))) =
  st_messages (fst (send (Rejected "Failed to fetch") demoTyping demoWorld)).
Proof.
  split; [reflexivity |]. split; [discriminate |].
  split; [vm_compute; discriminate |]. split; [reflexivity |].
  split; [vm_compute; discriminate |].
  pose proof (remount_restores "Failed to fetch" "Failed to fetch" "demo-agent-1"
                (Rejected "Failed to fetch") demoTyping demoWorld
                eq_refl ltac:(discriminate) ltac:(vm_compute; discriminate) eq_refl
                ltac:(vm_compute; discriminate)) as H.
  destruct (send (Rejected "Failed to fetch") demoTyping demoWorld) as [st1 w1].
  cbn [fst snd].
  destruct (mountEffect _ _ _ w1) as [st2 w2].
  destruct H as (_ & Hm & _). exact Hm.
Defined.

(** ** Where the steps and the preview card attach *)

Lemma lastAssistantIdx_snoc (ms : list ChatMessageOut) (m : ChatMessageOut) :
  lastAssistantIdx (ms ++ [m]) =
  if isAssistant m then Z.of_nat (length ms) else lastAssistantIdx ms.
Proof.
  unfold lastAssistantIdx. rewrite imap_app, reverse_app. cbn.
  rewrite Nat.add_0_r. by destruct (isAssistant m).
Qed.

Lemma isAssistant_user (m : ChatMessageOut) : isAssistant m = false ↔ msg_role m = user.
Proof. unfold isAssistant. by destruct (msg_role m). Qed.

Lemma isAssistant_assistant (m : ChatMessageOut) :
  isAssistant m = true ↔ msg_role m = assistant.
Proof. unfold isAssistant. by destruct (msg_role m). Qed.

Example lastAssistantIdx_empty : lastAssistantIdx [] = (-1)%Z.
Proof. reflexivity. Qed.

(** X9. [lastAssistantIdx] is the position of the last assistant message:
    it is -1 exactly when every message is the user's, otherwise it is below
    the length, the message there is the assistant's and every later one is
    the user's. After each demo exchange, and after a cancelled or confirmed
    post, it is the position of the final message, so the step tracker and
    the preview card sit at the newest reply. *)
Theorem lastAssistantIdx_spec (ms : list ChatMessageOut) :
  (lastAssistantIdx ms = (-1)%Z ↔ Forall (λ m, msg_role m = user) ms) ∧
  (-1 ≤ lastAssistantIdx ms < Z.of_nat (length ms))%Z ∧
  (∀ i : nat, lastAssistantIdx ms = Z.of_nat i ↔
     (∃ m, ms !! i = Some m ∧ msg_role m = assistant) ∧
     (∀ j m, i < j → ms !! j = Some m → msg_role m = user)) ∧
  (∀ (agentId message : string) (sessionId : option string) (w : World),
     lastAssistantIdx (messages (fst (mockSendChat agentId message sessionId w))) =
     (Z.of_nat (length (messages (fst (mockSendChat agentId message sessionId w)))) - 1)%Z) ∧
  (∀ (st : ChatState) (w : World),
     lastAssistantIdx (st_messages (fst (handleCancelled st w))) =
     Z.of_nat (length (st_messages st))).
Proof.
  split; [| split; [| split; [| split]]].
  - induction ms as [|m ms IH] using rev_ind; [done |].
    rewrite lastAssistantIdx_snoc, Forall_app, Forall_singleton, <- isAssistant_user.
    destruct (isAssistant m); [| rewrite IH; tauto].
    split; [lia | intros [_ ?]; done].
  - induction ms as [|m ms IH] using rev_ind; [done |].
    rewrite lastAssistantIdx_snoc, length_app. cbn.
    destruct (isAssistant m); lia.
  - induction ms as [|m ms IH] using rev_ind; intros i.
    + split; [unfold lastAssistantIdx; cbn; lia |]. intros [(m & Hm & _) _]. done.
    + rewrite lastAssistantIdx_snoc. destruct (isAssistant m) eqn:Hm.
      * apply isAssistant_assistant in Hm. split.
        -- intros Hi. apply Nat2Z.inj in Hi. subst i. split.
           ++ exists m. split; [| done]. by rewrite lookup_app_r, Nat.sub_diag.
           ++ intros j m' Hj Hl. apply lookup_lt_Some in Hl.
              rewrite length_app in Hl. cbn in Hl. lia.
        -- intros [(m' & Hl & Hr) Hlater]. f_equal.
           destruct (Nat.lt_trichotomy i (length ms)) as [Hlt | [Heq | Hgt]]; [| done |].
           ++ specialize (Hlater (length ms) m Hlt).
              rewrite lookup_app_r, Nat.sub_diag in Hlater by done.
              specialize (Hlater eq_refl). congruence.
           ++ apply lookup_lt_Some in Hl. rewrite length_app in Hl. cbn in Hl. lia.
      * apply isAssistant_user in Hm. rewrite IH. split.
        -- intros [(m' & Hl & Hr) Hlater]. split.
           ++ exists m'. split; [| done]. rewrite lookup_app_l; [done |].
              by eapply lookup_lt_Some.
           ++ intros j m'' Hj Hl'.
              destruct (decide (j < length ms)) as [Hjl | Hjl].
              ** rewrite lookup_app_l in Hl' by done. by eapply Hlater.
              ** rewrite lookup_app_r in Hl' by lia.
                 destruct (j - length ms) as [|k] eqn:Hk; [| done].
                 cbn in Hl'. congruence.
        -- intros [(m' & Hl & Hr) Hlater].
           assert (Hi : i < length ms).
           { destruct (decide (i < length ms)) as [|Hge]; [done |].
             rewrite lookup_app_r in Hl by lia.
             destruct (i - length ms) as [|k] eqn:Hk; [| done].
             cbn in Hl. congruence. }
           rewrite lookup_app_l in Hl by done. split; [by exists m' |].
           intros j m'' Hj Hl'. apply (Hlater j m'' Hj).
           rewrite lookup_app_l; [done |]. by eapply lookup_lt_Some.
  - intros agentId message sessionId w. rewrite mockSendChat_eq. cbn [fst messages].
    unfold exchange.
    rewrite cons_middle, app_assoc, lastAssistantIdx_snoc. cbn [isAssistant msg_role].
    rewrite !length_app. cbn. lia.
  - intros st w. unfold handleCancelled. run_world. by rewrite lastAssistantIdx_snoc.
Qed.

Lemma lastAssistantIdx_spec_witness :
  lastAssistantIdx (messages (fst (mockSendChat "demo-agent-1" "hello" None demoWorld))) = 1%Z.
Proof.
  destruct (lastAssistantIdx_spec []) as (_ & _ & _ & H & _).
  rewrite (H "demo-agent-1" "hello" None demoWorld). reflexivity.
Defined.

(** ** Requests that succeed and requests that fall back *)

Lemma apiCall_requests (nc : Fetched ChatResponse * SendCall) (w : World) :
  requests (snd (apiCall nc w)) = requests w ++ [requestOf (snd nc)].
Proof.
  destruct nc as [[res | e] c]; unfold apiCall, sendChat; run_world; [done |].
  by rewrite mockSendChat_eq.
Qed.

Lemma apiCall_history (nc : Fetched ChatResponse * SendCall) (w : World) (sid : string) :
  historyOf (snd (apiCall nc w)) sid =
  if isRejected (fst nc) && bool_decide (call_session (snd nc) = sid)
  then historyOf w sid ++
       exchange (snd (fetch (requestOf (snd nc)) w)) (call_message (snd nc))
         (agentNameOf (call_agentId (snd nc)))
  else historyOf w sid.
Proof.
  destruct nc as [[res | e] c]; unfold apiCall, sendChat; run_world; [done |].
  rewrite mockSendChat_eq. cbn [snd]. fold (call_session c).
  destruct (bool_decide_reflect (call_session c = sid)) as [<- | Hne].
  - by rewrite historyOf_stored.
  - unfold historyOf. cbn [sessionHistory]. by rewrite lookup_insert_ne.
Qed.

(** X10. Over any sequence of [api.sendChat] calls, each with its own
    outcome: every call is sent to the backend exactly once, in order; the
    demo store records exactly the exchanges of the calls whose request
    failed, in order, and nothing of the calls the backend answered. So a
    conversation that is served partly by the backend and partly by the demo
    is remembered by the demo only in part. *)
Theorem mixed_sends_recorded_in_part
    (ncs : list (Fetched ChatResponse * SendCall)) (w : World) (sid : string) :
  requests (runSends ncs w) = requests w ++ (requestOf ∘ snd <$> ncs) ∧
  ∃ added : list ChatMessageOut,
    historyOf (runSends ncs w) sid = historyOf w sid ++ added ∧
    transcript added = concat (turnOf <$> onSession sid (fellBack ncs)).
Proof.
  revert w. induction ncs as [|nc ncs IH]; intros w.
  - cbn. rewrite app_nil_r. split; [done |]. exists []. by rewrite app_nil_r.
  - cbn [runSends]. destruct (IH (snd (apiCall nc w))) as (Hr & added & Hh & Ht).
    split.
    + rewrite Hr, apiCall_requests, <- app_assoc. reflexivity.
    + rewrite Hh, apiCall_history. unfold fellBack, onSession in *.
      cbn [List.filter]. destruct nc as [net c]. cbn [fst snd].
      destruct (isRejected net); cbn [andb fmap list_fmap List.filter snd].
      * case_bool_decide as Heq.
        -- eexists. rewrite <- app_assoc. split; [reflexivity |].
           rewrite transcript_app, Ht. cbn [fmap list_fmap concat].
           by rewrite transcript_exchange.
        -- exists added. by split.
      * exists added. by split.
Qed.

(** ** The minted session over the fallback *)

Lemma runSends_appends (ncs : list (Fetched ChatResponse * SendCall)) (w : World) (sid : string) :
  ∃ added : list ChatMessageOut,
    historyOf (runSends ncs w) sid = historyOf w sid ++ added ∧
    transcript added = concat (turnOf <$> onSession sid (fellBack ncs)).
Proof.
  revert w. induction ncs as [|nc ncs IH]; intros w.
  - exists []. by rewrite app_nil_r.
  - cbn [runSends]. destruct (IH (snd (apiCall nc w))) as (added & Hh & Ht).
    rewrite Hh, apiCall_history. unfold fellBack, onSession in *.
    cbn [List.filter]. destruct nc as [net c]. cbn [fst snd].
    destruct (isRejected net); cbn [andb fmap list_fmap List.filter snd].
    + case_bool_decide as Heq.
      * eexists. rewrite <- app_assoc. split; [reflexivity |].
        rewrite transcript_app, Ht. cbn [fmap list_fmap concat].
        by rewrite transcript_exchange.
      * exists added. by split.
    + exists added. by split.
Qed.

Lemma sendChat_fallback_eq (e agentId message : string) (sessionId : option string) (w : World) :
  sendChat (Rejected e) agentId message sessionId w =
  mockSendChat agentId message sessionId (snd (fetch (PostChat agentId message sessionId) w)).
Proof. reflexivity. Qed.

Lemma sendChat_fallback_spec (e agentId message : string) (sessionId : option string)
    (w : World) :
  session_id (fst (sendChat (Rejected e) agentId message sessionId w)) =
    resolveSession agentId sessionId ∧
  messages (fst (sendChat (Rejected e) agentId message sessionId w)) =
    historyOf w (resolveSession agentId sessionId) ++
    exchange (snd (fetch (PostChat agentId message sessionId) w)) message (agentNameOf agentId) ∧
  historyOf (snd (sendChat (Rejected e) agentId message sessionId w))
      (resolveSession agentId sessionId) =
    messages (fst (sendChat (Rejected e) agentId message sessionId w)) ∧
  reply (fst (sendChat (Rejected e) agentId message sessionId w)) =
    pickReply message (agentNameOf agentId).
Proof.
  rewrite sendChat_fallback_eq, mockSendChat_eq. cbn [fst snd session_id messages reply].
  by rewrite historyOf_stored.
Qed.

Lemma historyOf_fetch (r : Request) (w : World) (sid : string) :
  historyOf (snd (fetch r w)) sid = historyOf w sid.
Proof. reflexivity. Qed.

(** C8, as the client behaves. When the request of a [sendMessage] call
    without a session id fails, the demo answers under the non-empty id
    "demo-session-" followed by the agent id; a later call that supplies this
    id and whose request fails as well (whatever [sendMessage] calls were
    made in between, answered by the backend or by the demo) answers under
    the same id with a
    message list that starts with all the messages of the first call, then
    the exchanges of the calls in between that fell back on this session,
    then its own. On the chat page: of two sends in a row that fall back, the
    second carries the id the first received and shows the messages of the
    first as a prefix. *)
Theorem minted_session_continues_in_demo
    (e1 e2 agentId message : string) (w : World) :
  let r1 := fst (sendChat (Rejected e1) agentId message None w) in
  let w1 := snd (sendChat (Rejected e1) agentId message None w) in
  session_id r1 = "demo-session-" +:+ agentId ∧
  session_id r1 ≠ "" ∧
  (∀ (agentId' message' : string) (between : list (Fetched ChatResponse * SendCall)),
     let w2 := runSends between w1 in
     let r2 := fst (sendChat (Rejected e2) agentId' message' (Some (session_id r1)) w2) in
     session_id r2 = session_id r1 ∧
     messages r1 `prefix_of` messages r2 ∧
     ∃ (added : list ChatMessageOut) (u a : ChatMessageOut),
       messages r2 = messages r1 ++ added ++ [u; a] ∧
       transcript added = concat (turnOf <$> onSession (session_id r1) (fellBack between)) ∧
       msg_role u = user ∧ msg_content u = message' ∧
       msg_role a = assistant ∧ msg_content a = reply r2) ∧
  (∀ (st : ChatState) (input2 : string),
     st_agentId st = Some agentId → agentId ≠ "" →
     Js.trim (st_input st) ≠ "" → Js.trim input2 ≠ "" →
     st_loading st = false → st_sessionId st = None →
     let st1 := fst (send (Rejected e1) st w) in
     let v1 := snd (send (Rejected e1) st w) in
     let st2 := fst (send (Rejected e2) (setInput input2 st1) v1) in
     let v2 := snd (send (Rejected e2) (setInput input2 st1) v1) in
     st_sessionId st1 = Some ("demo-session-" +:+ agentId) ∧
     st_sessionId st2 = st_sessionId st1 ∧
     last (requests v2) = Some (PostChat agentId (Js.trim input2) (st_sessionId st1)) ∧
     st_messages st1 `prefix_of` st_messages st2).
Proof.
  intros r1 w1.
  destruct (sendChat_fallback_spec e1 agentId message None w) as (Hs1 & _ & Hh1 & _).
  fold r1 w1 in Hs1, Hh1. cbn [resolveSession default from_option] in Hs1, Hh1.
  split; [exact Hs1 |]. split; [by rewrite Hs1 |]. split.
  - intros agentId' message' between w2 r2.
    destruct (sendChat_fallback_spec e2 agentId' message' (Some (session_id r1)) w2)
      as (Hs2 & Hm2 & _ & Hr2).
    fold r2 in Hs2, Hm2, Hr2. cbn [resolveSession default from_option id] in Hs2, Hm2.
    destruct (runSends_appends between w1 (session_id r1)) as (added & Hh & Ht).
    fold w2 in Hh. rewrite Hs1 in Hh at 2. rewrite Hh1 in Hh.
    rewrite Hh, <- app_assoc in Hm2.
    split; [exact Hs2 |]. split; [by eexists |].
    exists added. eexists _, _. split; [exact Hm2 |]. split; [exact Ht |].
    by rewrite Hr2.
  - intros st input2 Ha Hna Hin Hin2 Hl Hs st1 v1 st2 v2. subst v2 st2 st1 v1.
    rewrite (send_fallback_eq e1 agentId st w Ha Hna Hin Hl). cbn [fst snd].
    rewrite Hs. cbn [resolveSession default from_option].
    erewrite (send_fallback_eq e2 agentId); [| exact Ha | exact Hna | exact Hin2 | reflexivity].
    cbn [fst snd st_sessionId st_messages st_input setInput resolveSession default from_option id
         requests].
    split; [done |]. split; [done |]. split; [by rewrite last_snoc |].
    rewrite historyOf_stored. by eexists.
Qed.

(** C8, as stated, fails: the backend answers a first message under a
    session id of its own; when the next request fails, the demo answers
    under that id, and its message list holds none of the first answer's
    messages. *)
Lemma backend_session_not_continued_by_demo :
  session_id (fst (sendChat (Resolved demoServerResponse) "demo-agent-1" "hello" None
                     demoWorld)) ≠ "" ∧
  session_id
    (fst (sendChat (Rejected "Failed to fetch") "demo-agent-1" "and then?"
            (Some (session_id (fst (sendChat (Resolved demoServerResponse) "demo-agent-1"
                                      "hello" None demoWorld))))
            (snd (sendChat (Resolved demoServerResponse) "demo-agent-1" "hello" None
                    demoWorld)))) =
  session_id (fst (sendChat (Resolved demoServerResponse) "demo-agent-1" "hello" None
                     demoWorld)) ∧
  ¬ messages (fst (sendChat (Resolved demoServerResponse) "demo-agent-1" "hello" None
                     demoWorld))
    `prefix_of`
    messages
      (fst (sendChat (Rejected "Failed to fetch") "demo-agent-1" "and then?"
              (Some (session_id (fst (sendChat (Resolved demoServerResponse) "demo-agent-1"
                                        "hello" None demoWorld))))
              (snd (sendChat (Resolved demoServerResponse) "demo-agent-1" "hello" None
                      demoWorld)))).
Proof.
  split; [discriminate |]. split; [reflexivity |].
  intros [k Hk]. vm_compute in Hk. discriminate Hk.
Qed.

(** The page part of the theorem, on the page with "  hello there " typed. *)
Lemma minted_session_continues_in_demo_witness :
  st_agentId demoTyping = Some "demo-agent-1" ∧ "demo-agent-1" ≠ "" ∧
  Js.trim (st_input demoTyping) ≠ "" ∧ Js.trim "and again" ≠ "" ∧
  st_loading demoTyping = false ∧ st_sessionId demoTyping = None ∧
  st_sessionId (fst (send (Rejected "Failed to fetch") demoTyping demoWorld))
    = Some ("demo-session-" +:+ "demo-agent-1").
Proof.
  split; [reflexivity |]. split; [discriminate |].
  split; [vm_compute; discriminate |]. split; [vm_compute; discriminate |].
  split; [reflexivity |]. split; [reflexivity |].
  destruct (minted_session_continues_in_demo "Failed to fetch" "Failed to fetch"
              "demo-agent-1" "hello there" demoWorld) as (_ & _ & _ & H).
  exact (proj1 (H demoTyping "and again" eq_refl ltac:(discriminate)
                  ltac:(vm_compute; discriminate) ltac:(vm_compute; discriminate)
                  eq_refl eq_refl)).
Defined.

Lemma resolveSession_minted_inj (a b : string) :
  resolveSession a None = resolveSession b None → a = b.
Proof. cbn. apply (inj (String.app "demo-session-")). Qed.

(** X11. Conversations started without a session id with different agents
    never mix: the minted ids differ, and no run of session-less calls to
    other agents changes the default history of an agent. *)
Theorem default_sessions_isolated (b : string) (cs : list SendCall) (w : World) :
  Forall (λ c, call_sessionId c = None ∧ call_agentId c ≠ b) cs →
  Forall (λ c, call_session c ≠ resolveSession b None) cs ∧
  historyOf (runCalls cs w) (resolveSession b None) = historyOf w (resolveSession b None).
Proof.
  intros Hcs.
  assert (Hne : Forall (λ c, call_session c ≠ resolveSession b None) cs).
  { eapply Forall_impl; [exact Hcs |]. intros c [Hnone Hb] Heq. apply Hb.
    unfold call_session in Heq. rewrite Hnone in Heq.
    by apply resolveSession_minted_inj. }
  split; [exact Hne |].
  destruct (runCalls_appends cs w (resolveSession b None)) as (added & Hh & Ht).
  assert (Hnil : onSession (resolveSession b None) cs = []).
  { clear -Hne. induction Hne as [|c cs Hc _ IH]; [done |].
    unfold onSession in *. cbn [List.filter]. by rewrite bool_decide_eq_false_2. }
  rewrite Hnil in Ht. apply (f_equal length) in Ht. rewrite length_transcript in Ht.
  destruct added; [| done]. by rewrite Hh, app_nil_r.
Qed.

Lemma default_sessions_isolated_witness :
  Forall (λ c, call_sessionId c = None ∧ call_agentId c ≠ "demo-agent-2")
    [ {| call_agentId := "demo-agent-1"; call_message := "hello"; call_sessionId := None |} ] ∧
  historyOf (runCalls
      [ {| call_agentId := "demo-agent-1"; call_message := "hello"; call_sessionId := None |} ]
      demoWorld) (resolveSession "demo-agent-2" None) =
  historyOf demoWorld (resolveSession "demo-agent-2" None).
Proof.
  assert (H : Forall (λ c, call_sessionId c = None ∧ call_agentId c ≠ "demo-agent-2")
    [ {| call_agentId := "demo-agent-1"; call_message := "hello"; call_sessionId := None |} ]).
  { repeat constructor. discriminate. }
  split; [exact H |].
  exact (proj2 (default_sessions_isolated "demo-agent-2" _ demoWorld H)).
Defined.

(** ** Invariants of the chat page in demo mode *)

Lemma issuedIds_draw (m : gmap string (list ChatMessageOut)) (ss : gmap string string)
    (ids : nat → string) (n : nat) (times : nat → string) (k : nat) (rq : list Request) :
  issuedIds {| sessionHistory := m; sessionStorage := ss; uuids := ids; uuids_drawn := S n;
               clock := times; clock_reads := k; requests := rq |} =
  issuedIds {| sessionHistory := m; sessionStorage := ss; uuids := ids; uuids_drawn := n;
               clock := times; clock_reads := k; requests := rq |} ++ [ids n].
Proof. unfold issuedIds. cbn [uuids uuids_drawn]. by rewrite seq_S, fmap_app. Qed.

Lemma issuedIds_only_draws (w w' : World) :
  uuids w' = uuids w → uuids_drawn w' = uuids_drawn w → issuedIds w' = issuedIds w.
Proof. unfold issuedIds. by intros -> ->. Qed.

Lemma sendBlocked_dec (st : ChatState) : sendBlocked st ∨ ¬ sendBlocked st.
Proof.
  unfold sendBlocked.
  destruct (st_agentId st) as [[|c a]|]; [tauto | | tauto].
  destruct (decide (Js.trim (st_input st) = "")); [tauto |].
  destruct (st_loading st); [tauto |].
  right. intros [? | [? | [? | ?]]]; done.
Qed.

Lemma pageInv_initial (agentId : option string) (ids times : nat → string) :
  pageInv agentId (initialChat agentId) (freshWorld ids times).
Proof.
  split; cbn;
    first [done | apply sublist_nil_l | (intros sid; apply sublist_nil_l) | by left].
Qed.

Lemma newConversation_idle (net : Fetched unit) (st : ChatState) (w : World) :
  st_sessionId st = None →
  snd (newConversation net st w) = w ∧
  (fst (newConversation net st w) = st ∨
   (st_messages (fst (newConversation net st w)) = [] ∧
    st_sessionId (fst (newConversation net st w)) = None ∧
    st_pendingPost (fst (newConversation net st w)) = None ∧
    st_loading (fst (newConversation net st w)) = st_loading st ∧
    st_agentId (fst (newConversation net st w)) = st_agentId st)).
Proof.
  intros Hs. unfold newConversation. rewrite Hs.
  destruct (st_agentId st) as [a|] eqn:Ha; [| by split; [| left]].
  destruct (Js.truthy a); cbn [negb]; [| by split; [| left]].
  run_world. split; [done |]. by right.
Qed.

Lemma pageInv_step (agentId : option string) (ev : PageEvent) (st : ChatState) (w : World) :
  pageInv agentId st w →
  pageInv agentId (fst (pageStep ev st w)) (snd (pageStep ev st w)).
Proof.
  intros [Hag Hpage Hstore Hpend Hload Hsaved Hsess].
  destruct ev as [text | e | net | reply steps |]; cbn [pageStep].
  - (* typing *)
    by split.
  - (* send *)
    destruct (sendBlocked_dec st) as [Hb | Hr].
    { rewrite (send_blocked_eq (Rejected e) st w Hb). by split. }
    destruct (not_blocked_ready st Hr) as (a & Ha & Hna & Hin & Hl).
    rewrite (send_fallback_eq e a st w Ha Hna Hin Hl). cbv zeta. cbn [fst snd].
    assert (Hsid : resolveSession a (st_sessionId st) = "demo-session-" +:+ a).
    { destruct Hsess as [-> | (a' & Ha' & ->)]; [done |]. cbn. congruence. }
    destruct w as [m ss ids n times k rq].
    assert (Hnew : (msg_id <$> exchange
              (nowISO (randomUUID
                 {| sessionHistory := m; sessionStorage := ss; uuids := ids;
                    uuids_drawn := n; clock := times; clock_reads := k;
                    requests := rq |}).2).2
              (Js.trim (st_input st)) (agentNameOf a)) `sublist_of`
            [ids n; ids (S n); ids (S (S n))]).
    { unfold exchange. cbn. by apply sublist_cons. }
    split; cbn [st_agentId st_messages st_pendingPost st_loading st_sessionId
               sessionStorage sessionHistory uuids uuids_drawn].
    + done.
    + rewrite !issuedIds_draw, <- !app_assoc, fmap_app.
      apply sublist_app; [apply Hstore | exact Hnew].
    + intros sid. rewrite !issuedIds_draw, <- !app_assoc.
      destruct (decide (resolveSession a (st_sessionId st) = sid)) as [<- | Hne].
      * rewrite historyOf_stored, fmap_app.
        apply sublist_app; [apply Hstore | exact Hnew].
      * unfold historyOf. cbn [sessionHistory]. rewrite lookup_insert_ne by done.
        apply sublist_inserts_r, Hstore.
    + done.
    + done.
    + intros a' Ha' Hna'. assert (a' = a) as -> by congruence.
      by rewrite lookup_insert_eq.
    + right. exists a. split; [congruence |]. by rewrite Hsid.
  - (* new conversation *)
    destruct Hsess as [Hnone | (a & Ha & Hs)].
    + destruct (newConversation_idle net st w Hnone) as [Hw [Hst | (Hm & Hs & Hp & Hl & Ha)]].
      * rewrite Hw, Hst. split; try done. by left.
      * rewrite Hw. split; try done.
        -- congruence.
        -- rewrite Hm. apply sublist_nil_l.
        -- congruence.
        -- intros a Ha' Hna'. rewrite Hs, <- Hnone. by apply Hsaved.
        -- by left.
    + destruct (decide (a = "")) as [-> | Hna].
      { assert (Hsame : newConversation net st w = (st, w)).
        { unfold newConversation. by rewrite Hag, Ha. }
        rewrite Hsame. cbn [fst snd].
        split; [exact Hag | exact Hpage | exact Hstore | exact Hpend | exact Hload
               | exact Hsaved | right; by exists ""]. }
      rewrite (newConversation_eq net a ("demo-session-" +:+ a) st w);
        [| congruence | done | exact Hs | done].
      cbn [fst snd]. split; cbn [st_agentId st_messages st_pendingPost st_loading
                                st_sessionId sessionStorage].
      * done.
      * apply sublist_nil_l.
      * intros sid. erewrite issuedIds_only_draws; [| reflexivity | reflexivity].
        unfold historyOf at 1. cbn [sessionHistory].
        destruct (isRejected net); [| apply Hstore].
        destruct (decide ("demo-session-" +:+ a = sid)) as [<- | Hne].
        -- rewrite lookup_delete_eq. apply sublist_nil_l.
        -- rewrite lookup_delete_ne by done. apply Hstore.
      * done.
      * done.
      * intros a' Ha' Hna'. assert (a' = a) as -> by congruence.
        apply lookup_delete_eq.
      * by left.
  - (* the post was confirmed *)
    unfold handleConfirmed. run_world. destruct w as [m ss ids n times k rq].
    split; cbn [st_agentId st_messages st_pendingPost st_loading st_sessionId
               sessionStorage]; try done.
    + rewrite issuedIds_draw, fmap_app.
      apply sublist_app; [| done].
      erewrite <- issuedIds_only_draws; [exact Hpage | reflexivity | reflexivity].
    + intros sid. rewrite issuedIds_draw. apply sublist_inserts_r.
      specialize (Hstore sid).
      erewrite issuedIds_only_draws in Hstore; [exact Hstore | reflexivity | reflexivity].
  - (* the post was cancelled *)
    unfold handleCancelled. run_world. destruct w as [m ss ids n times k rq].
    split; cbn [st_agentId st_messages st_pendingPost st_loading st_sessionId
               sessionStorage]; try done.
    + rewrite issuedIds_draw, fmap_app.
      apply sublist_app; [| done].
      erewrite <- issuedIds_only_draws; [exact Hpage | reflexivity | reflexivity].
    + intros sid. rewrite issuedIds_draw. apply sublist_inserts_r.
      specialize (Hstore sid).
      erewrite issuedIds_only_draws in Hstore; [exact Hstore | reflexivity | reflexivity].
Qed.

Lemma pageInv_run (agentId : option string) (evs : list PageEvent) (st : ChatState) (w : World) :
  pageInv agentId st w →
  pageInv agentId (fst (runPage evs st w)) (snd (runPage evs st w)).
Proof.
  revert st w. induction evs as [|ev evs IH]; intros st w Hinv; [done |].
  cbn [runPage]. pose proof (pageInv_step agentId ev st w Hinv) as Hstep.
  destruct (pageStep ev st w) as [st' w']. by apply IH.
Qed.

(** X12. However the user types, sends, starts over, and answers preview
    cards while the backend is unreachable, the messages on the page carry
    pairwise distinct ids (they are the React keys of the thread), and so do
    the messages of every stored session, provided the ids handed out by
    [crypto.randomUUID()] so far are pairwise distinct. *)
Theorem demo_page_ids_distinct
    (agentId : option string) (ids times : nat → string) (evs : list PageEvent) :
  NoDup (issuedIds (snd (runPage evs (initialChat agentId) (freshWorld ids times)))) →
  NoDup (msg_id <$> st_messages (fst (runPage evs (initialChat agentId) (freshWorld ids times)))) ∧
  ∀ sid, NoDup (msg_id <$> historyOf
                  (snd (runPage evs (initialChat agentId) (freshWorld ids times))) sid).
Proof.
  intros Hnd.
  destruct (pageInv_run agentId evs _ _ (pageInv_initial agentId ids times))
    as [_ Hpage Hstore _ _ _ _].
  split; [| intros sid]; eapply sublist_NoDup; eauto.
Qed.

Lemma demo_page_ids_distinct_witness :
  NoDup (issuedIds (snd (runPage demoVisit (initialChat (Some "demo-agent-1")) demoWorld))) ∧
  NoDup (msg_id <$> st_messages
           (fst (runPage demoVisit (initialChat (Some "demo-agent-1")) demoWorld))).
Proof.
  assert (H : NoDup (issuedIds
            (snd (runPage demoVisit (initialChat (Some "demo-agent-1")) demoWorld)))).
  { refine (bool_decide_unpack _ _). vm_compute. exact I. }
  split; [exact H |].
  exact (proj1 (demo_page_ids_distinct (Some "demo-agent-1") _ _ demoVisit H)).
Defined.






(** ** Substrings and letter case *)

Lemma ascii_ne_high (a b : Ascii.ascii) :
  isAsciiChar a = true → isAsciiChar b = false → Ascii.eqb a b = false.
Proof.
  intros Ha Hb. destruct (Ascii.eqb_spec a b) as [-> | _]; [congruence | done].
Qed.

Lemma toLowerCase_cases (c : Ascii.ascii) (r : string) :
  (∃ r2, c = Js.byte 196 ∧ r = String (Js.byte 176) r2 ∧
     Js.toLowerCase (String c r) =
       String (Js.byte 105) (String (Js.byte 204) (String (Js.byte 135) (Js.toLowerCase r2)))) ∨
  (∃ r3, c = Js.byte 226 ∧ r = String (Js.byte 132) (String (Js.byte 170) r3) ∧
     Js.toLowerCase (String c r) = String (Js.byte 107) (Js.toLowerCase r3)) ∨
  Js.toLowerCase (String c r) = String (Js.lowerChar c) (Js.toLowerCase r).
Proof.
  destruct r as [|d r2]; [by right; right |].
  cbn [Js.toLowerCase]. unfold Js.isCapitalIDot, Js.isKelvin.
  destruct (Ascii.eqb_spec c (Js.byte 196)) as [-> | Hc];
    [destruct (Ascii.eqb_spec d (Js.byte 176)) as [-> | Hd] |]; cbn [andb].
  - left. by exists r2.
  - right; right. destruct r2 as [|e r3]; [done |].
    by destruct (Ascii.eqb_spec (Js.byte 196) (Js.byte 226)).
  - destruct r2 as [|e r3]; [by right; right |].
    destruct (Ascii.eqb_spec c (Js.byte 226)) as [-> | Hc2]; cbn [andb]; [| by right; right].
    destruct (Ascii.eqb_spec d (Js.byte 132)) as [-> | Hd]; cbn [andb]; [| by right; right].
    destruct (Ascii.eqb_spec e (Js.byte 170)) as [-> | He]; [| by right; right].
    right; left. by exists r3.
Qed.

Lemma plainNeedle_cons (a : Ascii.ascii) (p : string) :
  plainNeedle (String a p) = true →
  isAsciiChar a = true ∧ Ascii.eqb a (Js.byte 107) = false ∧
  (Ascii.eqb a (Js.byte 105) = true → ∃ b q, p = String b q) ∧ plainNeedle p = true.
Proof.
  cbn [plainNeedle]. rewrite !andb_true_iff, orb_true_iff, !negb_true_iff.
  intros [[[Ha Hk] Hi] Hp]. repeat split; try done.
  intros Hai. destruct Hi as [Hi | Hi]; [congruence |].
  destruct p as [|b q]; [done | by eexists _, _].
Qed.

Lemma startsWith_high (b : Ascii.ascii) (s p : string) :
  plainNeedle p = true → isAsciiChar b = false → p ≠ "" →
  Js.startsWith (String b s) p = false.
Proof.
  destruct p as [|a p]; [done |]. intros Hp Hb _.
  apply plainNeedle_cons in Hp as (Ha & _). cbn. by rewrite (ascii_ne_high a b).
Qed.

Lemma startsWith_cons (a b : Ascii.ascii) (s p : string) :
  Js.startsWith (String b s) (String a p) = if Ascii.eqb a b then Js.startsWith s p else false.
Proof. reflexivity. Qed.

(** The lower case of U+0130 and of U+212A starts no plain needle. *)
Lemma startsWith_dotted_i (s p : string) :
  plainNeedle p = true → p ≠ "" →
  Js.startsWith (String (Js.byte 105) (String (Js.byte 204) s)) p = false.
Proof.
  destruct p as [|a p]; [done |]. intros Hp _.
  apply plainNeedle_cons in Hp as (_ & _ & Hi & Hp').
  rewrite startsWith_cons. destruct (Ascii.eqb a (Js.byte 105)); [| done].
  destruct (Hi eq_refl) as (b & q & ->). by apply startsWith_high.
Qed.

Lemma startsWith_kelvin (s p : string) :
  plainNeedle p = true → p ≠ "" → Js.startsWith (String (Js.byte 107) s) p = false.
Proof.
  destruct p as [|a p]; [done |]. intros Hp _.
  apply plainNeedle_cons in Hp as (_ & Hk & _). by rewrite startsWith_cons, Hk.
Qed.

(** On a needle of plain ASCII characters, the lower-cased text and the
    ASCII-folded text start alike. *)
Lemma startsWith_toLowerCase (p : string) :
  plainNeedle p = true →
  ∀ s, Js.startsWith (Js.toLowerCase s) p = Js.startsWith (Js.foldAscii s) p.
Proof.
  induction p as [|a p IH]; intros Hp s;
    [by destruct (Js.toLowerCase s), (Js.foldAscii s) |].
  pose proof (plainNeedle_cons a p Hp) as (Ha & Hk & Hi & Hp').
  destruct s as [|c r]; [done |].
  destruct (toLowerCase_cases c r) as [(r2 & -> & -> & ->) | [(r3 & -> & -> & ->) | ->]].
  - rewrite startsWith_dotted_i by done. cbn [Js.foldAscii].
    by rewrite startsWith_high.
  - rewrite startsWith_kelvin by done. cbn [Js.foldAscii].
    by rewrite startsWith_high.
  - cbn [Js.foldAscii]. rewrite !startsWith_cons.
    destruct (Ascii.eqb a (Js.lowerChar c)); [by apply IH | done].
Qed.

Lemma includes_cons (c : Ascii.ascii) (s p : string) :
  Js.includes (String c s) p = Js.startsWith (String c s) p || Js.includes s p.
Proof. reflexivity. Qed.

Lemma includes_toLowerCase_le (p : string) (n : nat) :
  plainNeedle p = true →
  ∀ s, String.length s ≤ n →
    Js.includes (Js.toLowerCase s) p = Js.includes (Js.foldAscii s) p.
Proof.
  intros Hp. induction n as [|n IH]; intros s Hn.
  { destruct s; [done | cbn in Hn; lia]. }
  destruct s as [|c r]; [done |].
  destruct p as [|a p]; [by destruct (Js.toLowerCase _), (Js.foldAscii _) |].
  cbn [String.length] in Hn.
  destruct (toLowerCase_cases c r) as [(r2 & -> & -> & Hl) | [(r3 & -> & -> & Hl) | Hl]];
    rewrite Hl; cbn [Js.foldAscii]; rewrite !includes_cons.
  - rewrite startsWith_dotted_i, !startsWith_high by done.
    cbn [orb]. apply IH. cbn [String.length] in Hn. lia.
  - rewrite startsWith_kelvin, !startsWith_high by done.
    cbn [orb]. apply IH. cbn [String.length] in Hn. lia.
  - f_equal; [| apply IH; lia].
    rewrite !startsWith_cons. destruct (Ascii.eqb a (Js.lowerChar c)); [| done].
    apply startsWith_toLowerCase. by apply plainNeedle_cons in Hp as (_ & _ & _ & Hp').
Qed.

(** An ASCII needle without k, and with no i at its end, occurs in the
    lower-cased text exactly when it occurs in the ASCII-folded text. *)
Lemma includes_toLowerCase (p s : string) :
  plainNeedle p = true →
  Js.includes (Js.toLowerCase s) p = Js.includes (Js.foldAscii s) p.
Proof. intros Hp. by apply (includes_toLowerCase_le p (String.length s)). Qed.

Lemma foldAscii_app (s t : string) :
  Js.foldAscii (s +:+ t) = Js.foldAscii s +:+ Js.foldAscii t.
Proof.
  induction s as [|c s IH]; [reflexivity |].
  rewrite string_app_cons. cbn [Js.foldAscii]. by rewrite IH.
Qed.

Lemma toLowerCase_ascii (s : string) : isAscii s = true → Js.toLowerCase s = Js.foldAscii s.
Proof.
  induction s as [|c s IH]; [done |]. cbn [isAscii]. intros [Hc Hs]%andb_true_iff.
  destruct (toLowerCase_cases c s) as [(r2 & -> & _) | [(r3 & -> & _) | ->]]; [done | done |].
  cbn [Js.foldAscii]. by rewrite IH.
Qed.

Lemma isAscii_app (s t : string) : isAscii (s +:+ t) = isAscii s && isAscii t.
Proof.
  induction s as [|c s IH]; [reflexivity |].
  rewrite string_app_cons. cbn [isAscii]. by rewrite IH, andb_assoc.
Qed.

Lemma startsWith_spec (s p : string) : Js.startsWith s p = true ↔ ∃ t, s = p +:+ t.
Proof.
  revert s. induction p as [|a p IH]; intros s.
  - split; [intros _; exists s; reflexivity | intros _; by destruct s].
  - destruct s as [|b s]; cbn.
    + split; [done | intros [t Ht]; by rewrite string_app_cons in Ht].
    + destruct (Ascii.eqb_spec a b) as [<- | Hne].
      * rewrite IH. split; intros [t Ht]; exists t.
        -- by rewrite string_app_cons, Ht.
        -- rewrite string_app_cons in Ht. by injection Ht.
      * split; [done |]. intros [t Ht]. rewrite string_app_cons in Ht. by injection Ht.
Qed.

(** [s.includes(sub)] holds exactly when [sub] occurs somewhere in [s]. *)
Lemma includes_spec (s sub : string) :
  Js.includes s sub = true ↔ ∃ pre post, s = pre +:+ sub +:+ post.
Proof.
  split.
  - induction s as [|c s IH]; cbn [Js.includes]; intros H; apply orb_true_iff in H.
    + destruct H as [H | H]; [| done].
      apply startsWith_spec in H as [t Ht]. by exists "", t.
    + destruct H as [H | H].
      * apply startsWith_spec in H as [t Ht]. by exists "", t.
      * destruct (IH H) as (pre & post & ->). by exists (String c pre), post.
  - intros (pre & post & ->). induction pre as [|c pre IH].
    + assert (Hs : Js.startsWith (sub +:+ post) sub = true)
        by (apply startsWith_spec; by exists post).
      change ("" +:+ sub +:+ post) with (sub +:+ post).
      destruct (sub +:+ post); cbn [Js.includes]; by rewrite Hs.
    + rewrite string_app_cons. cbn [Js.includes]. rewrite IH. apply orb_true_r.
Qed.

Lemma includes_embedded (s sub pre post : string) :
  Js.includes s sub = true → Js.includes (pre +:+ s +:+ post) sub = true.
Proof.
  rewrite !includes_spec. intros (p & q & ->). exists (pre +:+ p), (q +:+ post).
  by rewrite !string_app_assoc.
Qed.

Lemma includes_shorter (s a b c : string) :
  Js.includes s (a +:+ b +:+ c) = true → Js.includes s b = true.
Proof.
  rewrite !includes_spec. intros (p & q & ->). exists (p +:+ a), (c +:+ q).
  by rewrite !string_app_assoc.
Qed.

(** X15. Whatever is written around a message with publish intent, the
    longer message has publish intent too and is answered with the offer to
    draft an insight, for every agent name: the intent branch is tried
    first and looks for its keywords anywhere in the text, also inside
    other words. *)
Theorem draft_offer_for_any_embedding (message pre post agentName : string) :
  publishIntent message = true →
  publishIntent (pre +:+ message +:+ post) = true ∧
  pickReply (pre +:+ message +:+ post) agentName = REPLY_DRAFT.
Proof.
  intros Hp.
  assert (H : publishIntent (pre +:+ message +:+ post) = true).
  { revert Hp. unfold publishIntent. cbv zeta.
    rewrite !includes_toLowerCase by reflexivity.
    rewrite !foldAscii_app, !orb_true_iff.
    intros [[H | H] | H]; eauto using includes_embedded. }
  split; [exact H |]. unfold publishIntent in H. cbv zeta in H.
  unfold pickReply. cbv zeta. by rewrite H.
Qed.

Lemma draft_offer_for_any_embedding_witness :
  publishIntent "post" = true ∧
  pickReply ("hello, where is the com" +:+ "post" +:+ " bin?") "ResearchBot-42" = REPLY_DRAFT.
Proof.
  split; [reflexivity |].
  exact (proj2 (draft_offer_for_any_embedding "post" "hello, where is the com" " bin?"
                  "ResearchBot-42" eq_refl)).
Defined.

(** ** The session id in the history path *)

Lemma chars_app (s t : string) : chars (s +:+ t) = chars s ++ chars t.
Proof. induction s as [|c s IH]; [reflexivity |]. rewrite string_app_cons. cbn. by rewrite IH. Qed.

Lemma percentEncode_chars (c : Ascii.ascii) :
  Forall (λ x, Uri.isUnreserved x = true ∨ x = Uri.percent) (chars (Uri.percentEncode c)).
Proof.
  destruct c as [[] [] [] [] [] [] [] []];
    (constructor; [by right |]); (constructor; [by left |]); (constructor; [by left |]);
    constructor.
Qed.

Lemma percentEncode_decodes (c : Ascii.ascii) :
  (hi ← Uri.hexValue (Uri.hexDigit (Ascii.nat_of_ascii c / 16));
   lo ← Uri.hexValue (Uri.hexDigit (Ascii.nat_of_ascii c mod 16));
   Some (Ascii.ascii_of_nat (16 * hi + lo))) = Some c.
Proof. destruct c as [[] [] [] [] [] [] [] []]; reflexivity. Qed.

Lemma unreserved_not_percent (c : Ascii.ascii) :
  Uri.isUnreserved c = true → Ascii.eqb c Uri.percent = false.
Proof.
  intros Hc. destruct (Ascii.eqb_spec c Uri.percent) as [-> | _]; [| done].
  by vm_compute in Hc.
Qed.

Lemma percentDecode_encode (s : string) (fuel : nat) :
  length (chars s) < fuel →
  Uri.percentDecode fuel (Uri.encodeURIComponent s) = Some s.
Proof.
  revert fuel. induction s as [|c s IH]; intros [|fuel] Hf; cbn in Hf; try lia; [done |].
  cbn [Uri.encodeURIComponent]. destruct (Uri.isUnreserved c) eqn:Hc.
  - rewrite string_app_cons. cbn [Uri.percentDecode].
    rewrite (unreserved_not_percent c Hc), IH by lia. done.
  - unfold Uri.percentEncode. rewrite !string_app_cons.
    change ("" +:+ Uri.encodeURIComponent s) with (Uri.encodeURIComponent s).
    cbn [Uri.percentDecode]. rewrite Ascii.eqb_refl, IH by lia.
    pose proof (percentEncode_decodes c) as Hd.
    destruct (Uri.hexValue (Uri.hexDigit (Ascii.nat_of_ascii c / 16))) as [hi|]; [| done].
    destruct (Uri.hexValue (Uri.hexDigit (Ascii.nat_of_ascii c mod 16))) as [lo|]; [| done].
    cbn in Hd |- *. by injection Hd as ->.
Qed.

Example encodeURIComponent_keeps_minted_id :
  Uri.encodeURIComponent "demo-session-demo-agent-1" = "demo-session-demo-agent-1".
Proof. reflexivity. Qed.

Example encodeURIComponent_escapes :
  Uri.encodeURIComponent "a b&c=d/é" = "a%20b%26c%3Dd%2F%C3%A9".
Proof. reflexivity. Qed.

Example historyPath_demo :
  requestPath (GetHistory "demo-agent-1" "s 1&x=2") =
  "/chat/demo-agent-1/history?session_id=s%201%26x%3D2".
Proof. reflexivity. Qed.

(** X17. [encodeURIComponent] loses nothing: percent-decoding its result
    gives the string back. So the history path determines the session id:
    for one agent, two session ids with the same path are the same id. *)
Theorem session_id_survives_encoding :
  (∀ s : string,
     Uri.percentDecode (S (length (chars s))) (Uri.encodeURIComponent s) = Some s) ∧
  (∀ s1 s2 : string,
     Uri.encodeURIComponent s1 = Uri.encodeURIComponent s2 → s1 = s2) ∧
  (∀ agentId s1 s2 : string,
     requestPath (GetHistory agentId s1) = requestPath (GetHistory agentId s2) → s1 = s2).
Proof.
  assert (Hinj : ∀ s1 s2 : string,
            Uri.encodeURIComponent s1 = Uri.encodeURIComponent s2 → s1 = s2).
  { intros s1 s2 He.
    pose proof (percentDecode_encode s1 (S (length (chars s1) `max` length (chars s2)))
                  ltac:(lia)) as H1.
    pose proof (percentDecode_encode s2 (S (length (chars s1) `max` length (chars s2)))
                  ltac:(lia)) as H2.
    rewrite He in H1. congruence. }
  split; [| split; [exact Hinj |]].
  - intros s. apply percentDecode_encode. lia.
  - intros agentId s1 s2 He. apply Hinj. unfold requestPath, historyPath in He.
    repeat apply (inj (String.app _)) in He. exact He.
Qed.

(** X18. Whatever the session id, its encoding in the history path consists
    of unreserved characters and percent signs only; none of the characters
    that delimit a path or a query (& = ? # / + and the space) occurs in
    it, so a session id cannot add or cut a query parameter. *)
Theorem encoded_session_id_is_one_parameter (sessionId : string) :
  Forall (λ c, Uri.isUnreserved c = true ∨ c = Uri.percent)
    (chars (Uri.encodeURIComponent sessionId)) ∧
  Forall (λ c, c ∉ chars "&=?#/+ ") (chars (Uri.encodeURIComponent sessionId)).
Proof.
  assert (H : Forall (λ c, Uri.isUnreserved c = true ∨ c = Uri.percent)
                (chars (Uri.encodeURIComponent sessionId))).
  { induction sessionId as [|c s IH]; [constructor |].
    cbn [Uri.encodeURIComponent]. rewrite chars_app. apply Forall_app. split; [| exact IH].
    destruct (Uri.isUnreserved c) eqn:Hc; [| apply percentEncode_chars].
    constructor; [by left | constructor]. }
  split; [exact H |]. eapply Forall_impl; [exact H |].
  intros c Hc Hin. cbn in Hin.
  repeat (apply elem_of_cons in Hin as [-> | Hin];
          [destruct Hc as [Hc | Hc]; by vm_compute in Hc |]).
  by apply elem_of_nil in Hin.
Qed.

(** ** The search box of the agent directory *)

Lemma includes_empty (s : string) : Js.includes s "" = true.
Proof. apply includes_spec. by exists "", s. Qed.

Lemma agentMatches_shorter (pre search post : string) (a : AgentDirectoryItem) :
  isAscii pre = true → isAscii search = true → isAscii post = true →
  agentMatches (pre +:+ search +:+ post) a = true → agentMatches search a = true.
Proof.
  intros Hpre Hs Hpost. unfold agentMatches.
  rewrite (toLowerCase_ascii (pre +:+ search +:+ post))
    by (by rewrite !isAscii_app, Hpre, Hs, Hpost).
  rewrite (toLowerCase_ascii search Hs).
  rewrite !foldAscii_app, !orb_true_iff, !existsb_exists.
  intros [[H | H] | (t & Hin & H)]; eauto using includes_shorter.
Qed.

Lemma filter_sublist_of_weaker {A} (p q : A → bool) (l : list A) :
  (∀ x, p x = true → q x = true) → List.filter p l `sublist_of` List.filter q l.
Proof.
  intros Hpq. induction l as [|x l IH]; cbn; [done |].
  destruct (p x) eqn:Hp.
  - rewrite (Hpq x Hp). by apply sublist_skip.
  - destruct (q x); [by apply sublist_cons | done].
Qed.

(** X19. In the agent directory an empty search box shows every agent,
    what is shown is always a sub-list of the agents in their order, and,
    for search texts of ASCII characters, typing more can only remove
    agents: the agents shown for a search text with something added before
    or after it are among those shown for the search text itself. *)
Theorem search_narrows (agents : list AgentDirectoryItem) (pre search post : string) :
  isAscii pre = true → isAscii search = true → isAscii post = true →
  filtered agents "" = agents ∧
  filtered agents (pre +:+ search +:+ post) `sublist_of` filtered agents search ∧
  filtered agents search `sublist_of` agents.
Proof.
  intros Hpre Hs Hpost. split; [| split].
  - unfold filtered. induction agents as [|a agents IH]; cbn; [done |].
    unfold agentMatches at 1. cbn [Js.toLowerCase]. rewrite includes_empty. cbn.
    by rewrite IH.
  - apply filter_sublist_of_weaker. intros a. by apply agentMatches_shorter.
  - unfold filtered. induction agents as [|a agents IH]; cbn; [done |].
    destruct (agentMatches search a); [by apply sublist_skip | by apply sublist_cons].
Qed.

Lemma search_narrows_witness :
  isAscii "web " = true ∧ isAscii "Scrap" = true ∧ isAscii "ing" = true ∧
  filtered MOCK_AGENTS ("web " +:+ "Scrap" +:+ "ing") `sublist_of` filtered MOCK_AGENTS "Scrap".
Proof.
  split; [reflexivity |]. split; [reflexivity |]. split; [reflexivity |].
  exact (proj1 (proj2 (search_narrows MOCK_AGENTS "web " "Scrap" "ing"
                         eq_refl eq_refl eq_refl))).
Defined.

Example search_demo_agents :
  agent_name <$> filtered MOCK_AGENTS "scrap" = ["WebAgentPro"].
Proof. reflexivity. Qed.

(** ** The shape of a demo conversation *)

Lemma turns_alternate (cs : list SendCall) (i : nat) (r : Role) (text : string) :
  concat (turnOf <$> cs) !! i = Some (r, text) →
  r = if Nat.even i then user else assistant.
Proof.
  revert i. induction cs as [|c cs IH]; intros i; [done |].
  destruct i as [|[|i]]; cbn.
  - by intros [= <- _].
  - by intros [= <- _].
  - apply IH.
Qed.

(** X20. A conversation held with the demo alone alternates: in every
    stored session the messages at even positions are the user's and those
    at odd positions are the assistant's, so the log has even length and
    ends with a reply. *)
Theorem demo_history_alternates
    (cs : list SendCall) (ids times : nat → string) (sid : string) :
  Nat.even (length (historyOf (runCalls cs (freshWorld ids times)) sid)) = true ∧
  ∀ i m, historyOf (runCalls cs (freshWorld ids times)) sid !! i = Some m →
         msg_role m = if Nat.even i then user else assistant.
Proof.
  destruct (runCalls_appends cs (freshWorld ids times) sid) as (added & Hh & Ht).
  change (historyOf (freshWorld ids times) sid) with (@nil ChatMessageOut) in Hh.
  rewrite app_nil_l in Hh. rewrite Hh. split.
  - rewrite <- length_transcript, Ht, length_turns. apply Nat.even_spec. by eexists.
  - intros i m Hm. eapply (turns_alternate _ i _ (msg_content m)).
    rewrite <- Ht. unfold transcript. by rewrite list_lookup_fmap, Hm.
Qed.

(** ** The labels of the blocker chart *)

(** X21. For a limit of at least one, [truncate] returns the string itself
    when it fits and otherwise its first [n - 1] code units followed by the
    ellipsis: the result never exceeds [n] code units, and it equals the
    input exactly when the input fits. *)
Theorem truncate_fits (str : list N) (n : nat) :
  1 ≤ n →
  length (truncate str n) = length str `min` n ∧
  (truncate str n = str ↔ length str ≤ n) ∧
  (n < length str → truncate str n = take (n - 1) str ++ [ELLIPSIS]).
Proof.
  intros Hn. unfold truncate, slice0.
  destruct (Nat.ltb_spec n (length str)) as [Hlt | Hge].
  - assert (Hz : (Z.of_nat n - 1 <? 0)%Z = false) by (apply Z.ltb_ge; lia).
    rewrite Hz. replace (Z.to_nat (Z.of_nat n - 1)) with (n - 1) by lia.
    split; [| split].
    + rewrite length_app, length_take. cbn. lia.
    + split; [| lia]. intros He. apply (f_equal length) in He.
      rewrite length_app, length_take in He. cbn in He. lia.
    + done.
  - split; [lia |]. split; [done | lia].
Qed.

Lemma truncate_fits_witness :
  1 ≤ 3 ∧ truncate [82; 65; 71; 32; 116; 105; 112; 115]%N 3 = [82; 65; 8230]%N.
Proof.
  split; [lia |].
  destruct (truncate_fits [82; 65; 71; 32; 116; 105; 112; 115]%N 3 ltac:(lia)) as (_ & _ & H).
  rewrite H by (cbn; lia). reflexivity.
Defined.

(** A limit of zero is the one case where nothing is cut off: the slice
    drops the last code unit and the ellipsis takes its place. *)
Example truncate_zero : truncate [82; 65; 71]%N 0 = [82; 65; 8230]%N.
Proof. reflexivity. Qed.

(** ** The statistics of the knowledge map *)

Lemma fold_verifications (insights : list Insight) (s : nat) :
  fold_left (λ s i, s + meta_verification_count (ins_metadata i)) insights s =
  s + totalVerifications insights.
Proof.
  unfold totalVerifications. revert s.
  induction insights as [|i insights IH]; intros s; cbn; [lia |].
  rewrite IH, (IH (meta_verification_count _)). lia.
Qed.

Lemma totalVerifications_cons (i : Insight) (insights : list Insight) :
  totalVerifications (i :: insights) =
  meta_verification_count (ins_metadata i) + totalVerifications insights.
Proof. unfold totalVerifications at 1. cbn [fold_left]. by rewrite fold_verifications. Qed.

(** X22. The three numbers of the statistics row are consistent for every
    list of insights: the verified insights are at most all insights and at
    most all verifications, and there is a verified insight exactly when
    there is a verification. *)
Theorem knowledge_map_totals (insights : list Insight) :
  verifiedInsights insights ≤ totalInsights insights ∧
  verifiedInsights insights ≤ totalVerifications insights ∧
  (verifiedInsights insights = 0 ↔ totalVerifications insights = 0).
Proof.
  unfold verifiedInsights, totalInsights.
  induction insights as [|i insights (IH1 & IH2 & IH3)]; [done |].
  rewrite totalVerifications_cons. cbn [List.filter].
  destruct (isVerified i) eqn:Hv; unfold isVerified in Hv;
    [apply Nat.ltb_lt in Hv | apply Nat.ltb_ge in Hv]; cbn [length]; lia.
Qed.
